(** * moto.elasticbeanstalk.models: the Elastic Beanstalk registry

    A shallow embedding of [moto/elasticbeanstalk/models.py] and the
    properties of its registry: identifier derivation, lookup by identifier,
    creation failures, tag mutation and reset.

    Objects that the Python code mutates or refers back to (backends, the
    [applications] dict of a backend, applications, environments) live in a
    store and are named by addresses; methods are computations over the store
    that return a value or raise. *)

From stdpp Require Import base list strings.
From Stdlib Require Import Bool Lia.

Local Open Scope string_scope.
Local Open Scope list_scope.

(** ** Python dicts

    A dict keeps its keys in insertion order; [d[k] = v] overwrites the value
    of a key that is present where it stands and appends a new key at the
    end. *)

Definition dict (V : Type) : Type := list (string * V).

(** [k in d] *)
Fixpoint dict_contains {V} (k : string) (d : dict V) : bool :=
  match d with
  | [] => false
  | (k', _) :: d' => if String.eqb k' k then true else dict_contains k d'
  end.

(** [d[k]]; [None] stands for [KeyError]. *)
Fixpoint dict_get {V} (k : string) (d : dict V) : option V :=
  match d with
  | [] => None
  | (k', v) :: d' => if String.eqb k' k then Some v else dict_get k d'
  end.

(** [d[k] = v] *)
Fixpoint dict_set {V} (k : string) (v : V) (d : dict V) : dict V :=
  match d with
  | [] => [(k, v)]
  | (k', v') :: d' =>
      if String.eqb k' k then (k', v) :: d' else (k', v') :: dict_set k v d'
  end.

(** [d.keys()] and [d.values()], in insertion order. *)
Definition dict_keys {V} (d : dict V) : list string := map fst d.
Definition dict_values {V} (d : dict V) : list V := map snd d.

(** ** Objects and the store *)

Abbreviation addr := nat.

(** A tag is the dict [{"key": k, "value": v}] that the request layer builds
    for each tag of a request.  Tags and tag lists are taken as plain values:
    the request layer builds them afresh for every call, so no two
    environments share a tag list or a tag. *)
Record Tag : Type := mkTag { tag_key : string; tag_value : string }.

Definition Tag_eqb (t u : Tag) : bool :=
  String.eqb (tag_key t) (tag_key u) && String.eqb (tag_value t) (tag_value u).

(** [Environment]: [application] is the weak proxy to the owning application,
    [tags] is [None] or a list. *)
Record Environment : Type := mkEnvironment {
  application : addr;
  environment_name : string;
  solution_stack_name : option string;
  tags : option (list Tag)
}.

(** [Application]: [backend] is the weak proxy to the backend that created
    it.  The [environments] dict is created once by [__init__] and never
    replaced or handed out, so it is kept inside the object. *)
Record Application : Type := mkApplication {
  backend : addr;
  application_name : string;
  environments : dict addr
}.

(** [EBBackend]: the instance attributes ([self.__dict__]).  [applications]
    is the address of a dict object of the store: [reset] replaces it and
    [describe_applications] hands out a view of it. *)
Record EBBackend : Type := mkEBBackend {
  region : string;
  applications : addr
}.

(** The store.  An address is an index into the list of its kind; objects
    are added at the end and never taken away (garbage collection is not
    modelled: every object that a backend can reach is kept alive by the dict
    that holds it). *)
Record Store : Type := mkStore {
  backends : list EBBackend;
  dicts : list (dict addr);
  apps : list Application;
  envs : list Environment
}.

Definition empty_store : Store := mkStore [] [] [] [].

(** ** Exceptions

    [exceptions.py] is not part of the sources at hand; an exception of one
    of its two classes is recorded as the class and the arguments the [raise]
    statement passes to it.  [ReferenceError] is what a weak proxy raises
    when its referent is gone; the model raises it for every address that
    the store does not hold. *)
Inductive exn : Type :=
| InvalidParameterValueError (args : list string)
| ResourceNotFoundException (args : list string)
| KeyError
| TypeError
| ValueError
| ReferenceError.

(** ** Computations over the store *)

Inductive result (A : Type) : Type :=
| Ok (a : A) (s : Store)
| Raise (e : exn) (s : Store).
Arguments Ok {A} a s.
Arguments Raise {A} e s.

Definition store_of {A} (r : result A) : Store :=
  match r with Ok _ s => s | Raise _ s => s end.

Definition M (A : Type) : Type := Store -> result A.

Definition ret {A} (a : A) : M A := fun s => Ok a s.

Definition raise {A} (e : exn) : M A := fun s => Raise e s.

Definition bind {A B} (c : M A) (k : A -> M B) : M B :=
  fun s => match c s with
           | Ok a s' => k a s'
           | Raise e s' => Raise e s'
           end.

Notation "'let*' x ':=' c 'in' k" := (bind c (fun x => k))
  (at level 10, x name, c at level 100, k at level 200).

(** [try: c  except KeyError: h] *)
Definition except_KeyError {A} (c : M A) (h : M A) : M A :=
  fun s => match c s with
           | Raise KeyError s' => h s'
           | r => r
           end.

(** [for x in l: body x] *)
Fixpoint for_each {A} (l : list A) (body : A -> M unit) : M unit :=
  match l with
  | [] => ret tt
  | x :: l' => let* _ := body x in for_each l' body
  end.

Definition deref {A} (o : option A) : M A :=
  match o with Some a => ret a | None => raise ReferenceError end.

Definition get_backend (a : addr) : M EBBackend := fun s => deref (backends s !! a) s.
Definition get_dict (a : addr) : M (dict addr) := fun s => deref (dicts s !! a) s.
Definition get_app (a : addr) : M Application := fun s => deref (apps s !! a) s.
Definition get_env (a : addr) : M Environment := fun s => deref (envs s !! a) s.

Definition set_backend (a : addr) (b : EBBackend) : M unit :=
  fun s => Ok tt (mkStore (<[a:=b]> (backends s)) (dicts s) (apps s) (envs s)).
Definition set_dict (a : addr) (d : dict addr) : M unit :=
  fun s => Ok tt (mkStore (backends s) (<[a:=d]> (dicts s)) (apps s) (envs s)).
Definition set_app (a : addr) (x : Application) : M unit :=
  fun s => Ok tt (mkStore (backends s) (dicts s) (<[a:=x]> (apps s)) (envs s)).
Definition set_env (a : addr) (x : Environment) : M unit :=
  fun s => Ok tt (mkStore (backends s) (dicts s) (apps s) (<[a:=x]> (envs s))).

(** Allocation: a new object gets the next free address. *)
Definition new_backend (b : EBBackend) : M addr :=
  fun s => Ok (length (backends s))
              (mkStore (backends s ++ [b]) (dicts s) (apps s) (envs s)).
Definition new_dict : M addr :=
  fun s => Ok (length (dicts s))
              (mkStore (backends s) (dicts s ++ [[]]) (apps s) (envs s)).
Definition new_app (x : Application) : M addr :=
  fun s => Ok (length (apps s))
              (mkStore (backends s) (dicts s) (apps s ++ [x]) (envs s)).
Definition new_env (x : Environment) : M addr :=
  fun s => Ok (length (envs s))
              (mkStore (backends s) (dicts s) (apps s) (envs s ++ [x])).

(** ** The three classes *)

Section Models.

(** [make_arn] of [utils.py] and [ACCOUNT_ID] of [moto.core] are imported by
    [models.py] and are not part of the sources at hand: the development is
    parametric in both. *)
Variable make_arn : string -> string -> string -> string -> string.
Variable ACCOUNT_ID : string.

(** *** Application *)

(** [Application.__init__], called as [Application(backend=..., application_name=...)] *)
Definition Application_init (backend : addr) (application_name : string) : M addr :=
  new_app (mkApplication backend application_name []).

(** The property [Application.region] *)
Definition Application_region (self : addr) : M string :=
  let* a := get_app self in
  let* b := get_backend (backend a) in
  ret (region b).

(** The property [Application.arn] *)
Definition Application_arn (self : addr) : M string :=
  let* r := Application_region self in
  let* a := get_app self in
  ret (make_arn r ACCOUNT_ID "application" (application_name a)).

(** *** Environment *)

(** [Environment.__init__].  The environment records the tags it is given
    as a value.  The code keeps the list object of the caller, so a list
    handed to two environments is one list there and two equal lists here;
    the tags of an environment just created, and what the calls that do not
    update tags leave in place, are the same in both. *)
Definition Environment_init (application : addr) (environment_name : string)
    (solution_stack_name : option string) (tags : option (list Tag)) : M addr :=
  new_env (mkEnvironment application environment_name solution_stack_name tags).

(** The property [Environment.application_name] *)
Definition Environment_application_name (self : addr) : M string :=
  let* e := get_env self in
  let* a := get_app (application e) in
  ret (application_name a).

(** The property [Environment.region] *)
Definition Environment_region (self : addr) : M string :=
  let* e := get_env self in
  Application_region (application e).

(** The property [Environment.environment_arn] *)
Definition Environment_environment_arn (self : addr) : M string :=
  let* an := Environment_application_name self in
  let* e := get_env self in
  let resource_path := an +:+ "/" +:+ environment_name e in
  let* r := Environment_region self in
  ret (make_arn r ACCOUNT_ID "environment" resource_path).

(** The property [Environment.platform_arn] *)
Definition Environment_platform_arn (self : addr) : M string := ret "TODO".

(** Modelled from the spec: [exceptions.py] is not part of the sources at
    hand.  Both error kinds of the registry carry a message (the name or the
    identifier that is in the way), and every raise site that builds one
    passes exactly this one argument: the class takes one required
    [message].  Calling it with any other number of arguments does not build
    the exception; Python raises [TypeError] instead. *)
Definition new_InvalidParameterValueError (args : list string) : exn :=
  match args with
  | [message] => InvalidParameterValueError [message]
  | _ => TypeError
  end.

(** [Application.create_environment].  The statement
    [raise InvalidParameterValueError] names the class alone, so Python
    calls it without an argument to get the exception to raise. *)
Definition Application_create_environment (self : addr) (environment_name : string)
    (solution_stack_name : option string) (tags : option (list Tag)) : M addr :=
  let* a := get_app self in
  if dict_contains environment_name (environments a)
  then raise (new_InvalidParameterValueError [])
  else
    let* env := Environment_init self environment_name solution_stack_name tags in
    let* a := get_app self in
    let* _ := set_app self
                (mkApplication (backend a) (application_name a)
                   (dict_set environment_name env (environments a))) in
    ret env.

(** *** EBBackend *)

(** [EBBackend.__init__] on the object at [self] *)
Definition EBBackend_init (self : addr) (region : string) : M unit :=
  let* d := new_dict in
  set_backend self (mkEBBackend region d).

(** [EBBackend(region)], which [BackendDict] calls on the first access to a
    region. *)
Definition EBBackend_new (region : string) : M addr :=
  let* d := new_dict in
  new_backend (mkEBBackend region d).

(** [EBBackend.reset].  [_reset_model_refs] is inherited from [BaseBackend]
    (not part of the sources at hand); it clears the per-class lists of model
    instances and touches none of the attributes modelled here.
    [self.__dict__ = {}] drops every attribute and [__init__] sets the two
    of them anew, so the record at [self] is replaced as a whole. *)
Definition reset (self : addr) : M unit :=
  let* b := get_backend self in
  let region := region b in
  EBBackend_init self region.

(** [EBBackend.create_application] *)
Definition create_application (self : addr) (application_name : string) : M addr :=
  let* b := get_backend self in
  let* d := get_dict (applications b) in
  if dict_contains application_name d
  then raise (InvalidParameterValueError
                ["Application " +:+ application_name +:+ " already exists."])
  else
    let* new_app := Application_init self application_name in
    let* b := get_backend self in
    let* d := get_dict (applications b) in
    let* _ := set_dict (applications b) (dict_set application_name new_app d) in
    ret new_app.

(** [EBBackend.describe_applications]: the values of the dict, as the view
    shows them when it is read in the current store. *)
Definition describe_applications (self : addr) : M (list addr) :=
  let* b := get_backend self in
  let* d := get_dict (applications b) in
  ret (dict_values d).

(** [self.applications[application_name]] *)
Definition applications_getitem (self : addr) (application_name : string) : M addr :=
  let* b := get_backend self in
  let* d := get_dict (applications b) in
  match dict_get application_name d with
  | Some app => ret app
  | None => raise KeyError
  end.

(** [EBBackend.create_environment].  The environment name is taken as a
    string (the [None] default of [environment_name] is left out); the stack
    name and the tags keep their [None] default.  In the code the key [None]
    is different from every string, the string "None" included, while both
    are written "None" in an identifier, so that two environments of one
    application can have the same identifier there. *)
Definition create_environment (self : addr) (application_name : string)
    (environment_name : string) (stack_name : option string)
    (tags : option (list Tag)) : M addr :=
  let* app :=
    except_KeyError (applications_getitem self application_name)
      (raise (InvalidParameterValueError
                ["No Application named '" +:+ application_name +:+ "' found."])) in
  Application_create_environment app environment_name stack_name tags.

(** [EBBackend.describe_environments] *)
Fixpoint describe_environments_loop (apps : list addr) (envs : list addr) : M (list addr) :=
  match apps with
  | [] => ret envs
  | app :: apps' =>
      let* a := get_app app in
      describe_environments_loop apps' (envs ++ dict_values (environments a))
  end.

Definition describe_environments (self : addr) : M (list addr) :=
  let* apps := describe_applications self in
  describe_environments_loop apps [].

(** [EBBackend._find_environment_by_arn]: the inner loop over
    [environments.values()], the outer loop over [applications.keys()];
    [Some env] is the [return env] that leaves both loops. *)
Fixpoint find_in_environments (envs : list addr) (arn : string) : M (option addr) :=
  match envs with
  | [] => ret None
  | env :: envs' =>
      let* env_arn := Environment_environment_arn env in
      if String.eqb env_arn arn then ret (Some env)
      else find_in_environments envs' arn
  end.

Fixpoint find_in_applications (self : addr) (keys : list string) (arn : string)
    : M (option addr) :=
  match keys with
  | [] => ret None
  | app :: keys' =>
      let* a := applications_getitem self app in
      let* a := get_app a in
      let* found := find_in_environments (dict_values (environments a)) arn in
      match found with
      | Some env => ret (Some env)
      | None => find_in_applications self keys' arn
      end
  end.

Definition _find_environment_by_arn (self : addr) (arn : string) : M addr :=
  let* b := get_backend self in
  let* d := get_dict (applications b) in
  let* found := find_in_applications self (dict_keys d) arn in
  match found with
  | Some env => ret env
  | None => raise KeyError
  end.

(** *** Tags of a resource *)

Definition has_key (k : string) (t : Tag) : bool := String.eqb (tag_key t) k.

(** [next((t for t in tags if t["key"] == k), None)] on a list: the first tag
    with the key, as its position and its contents. *)
Fixpoint first_with_key (k : string) (l : list Tag) : option (nat * Tag) :=
  match l with
  | [] => None
  | t :: l' =>
      if has_key k t then Some (0, t)
      else match first_with_key k l' with
           | Some (i, u) => Some (S i, u)
           | None => None
           end
  end.

(** [l.remove(x)]: drops the first item equal to [x]; [None] stands for the
    [ValueError] of a list without such an item. *)
Fixpoint list_remove (x : Tag) (l : list Tag) : option (list Tag) :=
  match l with
  | [] => None
  | t :: l' =>
      if Tag_eqb t x then Some l'
      else match list_remove x l' with
           | Some r => Some (t :: r)
           | None => None
           end
  end.

Definition with_tags (e : Environment) (tags : option (list Tag)) : Environment :=
  mkEnvironment (application e) (environment_name e) (solution_stack_name e) tags.

(** One round of the first loop of [update_tags_for_resource].  Building the
    generator iterates [res.tags], which raises [TypeError] when it is
    [None]. *)
Definition add_tag (res : addr) (tag : Tag) : M unit :=
  let* e := get_env res in
  match tags e with
  | None => raise TypeError
  | Some l =>
      match first_with_key (tag_key tag) l with
      | None => set_env res (with_tags e (Some (l ++ [tag])))
      | Some (i, existing_tag) =>
          set_env res
            (with_tags e
               (Some (<[i := mkTag (tag_key existing_tag) (tag_value tag)]> l)))
      end
  end.

(** One round of the second loop. *)
Definition remove_tag (res : addr) (key : string) : M unit :=
  let* e := get_env res in
  match tags e with
  | None => raise TypeError
  | Some l =>
      match first_with_key key l with
      | None => ret tt
      | Some (_, existing_tag) =>
          match list_remove existing_tag l with
          | Some l' => set_env res (with_tags e (Some l'))
          | None => raise ValueError
          end
      end
  end.

Definition not_found_for_arn (resource_arn : string) : exn :=
  ResourceNotFoundException ["Resource not found for ARN '" +:+ resource_arn +:+ "'."].

(** [EBBackend.update_tags_for_resource] *)
Definition update_tags_for_resource (self : addr) (resource_arn : string)
    (tags_to_add : list Tag) (tags_to_remove : list string) : M unit :=
  let* res :=
    except_KeyError (_find_environment_by_arn self resource_arn)
      (raise (not_found_for_arn resource_arn)) in
  let* _ := for_each tags_to_add (add_tag res) in
  for_each tags_to_remove (remove_tag res).

(** [EBBackend.list_tags_for_resource]: the pair stands for the dict
    [{"ResourceArn": ..., "ResourceTags": ...}]. *)
Definition list_tags_for_resource (self : addr) (resource_arn : string)
    : M (string * option (list Tag)) :=
  let* res :=
    except_KeyError (_find_environment_by_arn self resource_arn)
      (raise (not_found_for_arn resource_arn)) in
  let* e := get_env res in
  ret (resource_arn, tags e).

(** ** Reachable stores

    The calls a client of the registry makes, and the stores they lead to
    from the empty one. *)

Inductive call : Type :=
| CallEBBackend (region : string)
| CallReset (self : addr)
| CallCreateApplication (self : addr) (application_name : string)
| CallCreateEnvironment (self : addr) (application_name environment_name : string)
    (stack_name : option string) (tags : option (list Tag))
| CallUpdateTags (self : addr) (resource_arn : string)
    (tags_to_add : list Tag) (tags_to_remove : list string)
| CallListTags (self : addr) (resource_arn : string).

Definition run_call (c : call) (s : Store) : Store :=
  match c with
  | CallEBBackend region => store_of (EBBackend_new region s)
  | CallReset self => store_of (reset self s)
  | CallCreateApplication self a => store_of (create_application self a s)
  | CallCreateEnvironment self a e stack tags =>
      store_of (create_environment self a e stack tags s)
  | CallUpdateTags self arn add remove =>
      store_of (update_tags_for_resource self arn add remove s)
  | CallListTags self arn => store_of (list_tags_for_resource self arn s)
  end.

Definition run_calls (cs : list call) (s : Store) : Store :=
  fold_left (fun s c => run_call c s) cs s.

Inductive reachable : Store -> Prop :=
| reachable_empty : reachable empty_store
| reachable_call s c : reachable s -> reachable (run_call c s).

(** ** The shape of a store

    What every reachable store satisfies: the back references of the objects
    a backend holds lead back to it, and the keys of the two mappings are the
    names of the objects stored under them. *)

Record wf (s : Store) : Prop := mk_wf {
  (** the [applications] attribute of a backend is a dict of the store *)
  wf_dict : forall self b,
    backends s !! self = Some b -> applications b < length (dicts s);
  (** two backends never share their [applications] dict *)
  wf_own : forall i j b c,
    backends s !! i = Some b -> backends s !! j = Some c ->
    applications b = applications c -> i = j;
  (** the keys of an [applications] dict are distinct *)
  wf_keys : forall self b d,
    backends s !! self = Some b -> dicts s !! applications b = Some d ->
    NoDup (dict_keys d);
  (** an application is stored under its own name and refers back to the
      backend that holds it *)
  wf_apps : forall self b d k a,
    backends s !! self = Some b -> dicts s !! applications b = Some d ->
    In (k, a) d ->
    exists app, apps s !! a = Some app /\ application_name app = k /\ backend app = self;
  (** an environment is stored under its own name and refers back to the
      application that holds it *)
  wf_envs : forall a app k e,
    apps s !! a = Some app -> In (k, e) (environments app) ->
    exists env, envs s !! e = Some env /\ environment_name env = k /\ application env = a;
  (** the backend of an application is a backend of the store *)
  wf_backend : forall a app,
    apps s !! a = Some app -> backend app < length (backends s)
}.

(** The store [s] in which the environment at [res] has the tag list [l]. *)
Definition store_with_tags (s : Store) (res : addr) (l : list Tag) : Store :=
  match envs s !! res with
  | Some e => mkStore (backends s) (dicts s) (apps s) (<[res := with_tags e (Some l)]> (envs s))
  | None => s
  end.

(** ** The tag rules in the words of the specification *)

(** "If a tag with the same key exists, its value is overwritten in place
    (preserving position); otherwise the tag is appended." *)
Fixpoint spec_upsert (tag : Tag) (l : list Tag) : list Tag :=
  match l with
  | [] => [tag]
  | t :: l' =>
      if String.eqb (tag_key t) (tag_key tag)
      then mkTag (tag_key t) (tag_value tag) :: l'
      else t :: spec_upsert tag l'
  end.

(** "The first tag with that key is removed if present; absence is silently
    ignored." *)
Fixpoint spec_remove (key : string) (l : list Tag) : list Tag :=
  match l with
  | [] => []
  | t :: l' => if String.eqb (tag_key t) key then l' else t :: spec_remove key l'
  end.

Definition spec_upsert_all (tags_to_add : list Tag) (l : list Tag) : list Tag :=
  fold_left (fun l tag => spec_upsert tag l) tags_to_add l.

Definition spec_remove_all (tags_to_remove : list string) (l : list Tag) : list Tag :=
  fold_left (fun l key => spec_remove key l) tags_to_remove l.

(** ** Notions used by the statements *)

(** A computation that leaves the store as it is, whatever it returns. *)
Definition pure {A} (c : M A) : Prop := forall s, store_of (c s) = s.

(** Two stores that differ at most in the tags of their environments. *)
Definition same_but_tags (s s' : Store) : Prop :=
  backends s' = backends s /\ dicts s' = dicts s /\ apps s' = apps s /\
  map (fun e => with_tags e None) (envs s') = map (fun e => with_tags e None) (envs s).

(** [arn] is the identifier that [environment_arn] computes for [env]. *)
Definition identifier_is (s : Store) (env : addr) (arn : string) : Prop :=
  Environment_environment_arn env s = Ok arn s.

(** No environment of the list [all] has the identifier [arn]. *)
Definition no_match (s : Store) (all : list addr) (arn : string) : Prop :=
  forall env, In env all -> exists a, identifier_is s env a /\ a <> arn.

(** [env] is the first environment of the list [all] with the identifier
    [arn]. *)
Definition first_match (s : Store) (all : list addr) (arn : string) (env : addr) : Prop :=
  exists before after,
    all = before ++ env :: after /\ identifier_is s env arn /\ no_match s before arn.

(** The environments of the application at [a], in the order of its dict. *)
Definition environments_of (s : Store) (a : addr) : list addr :=
  match apps s !! a with
  | Some app => dict_values (environments app)
  | None => []
  end.

(** The environments under the applications of the dict [d]: application
    registration order, then environment registration order. *)
Definition all_environments (s : Store) (d : dict addr) : list addr :=
  flat_map (environments_of s) (dict_values d).

(** The test [env.environment_arn == arn] of the scan. *)
Definition arn_matches (s : Store) (arn : string) (env : addr) : bool :=
  match Environment_environment_arn env s with
  | Ok a _ => String.eqb a arn
  | Raise _ _ => false
  end.

(** The identifiers in the words of the specification: the ARN built from
    the region, the account placeholder, the kind and the path, where the
    path of an application is its name and the path of an environment is the
    application name, a slash and the environment name. *)
Definition application_identifier (region a : string) : string :=
  make_arn region ACCOUNT_ID "application" a.

Definition environment_identifier (region a e : string) : string :=
  make_arn region ACCOUNT_ID "environment" (a +:+ "/" +:+ e).

(** ** Concrete inputs *)

(** Modelled from the spec: [make_arn] of [utils.py] and [ACCOUNT_ID] of
    [moto.core] are not part of the sources at hand; the specification only
    says that the identifier is an ARN-shaped string built from the region,
    the account placeholder, the resource kind and the resource path.  The
    two definitions serve to run the model on concrete inputs; no theorem
    depends on them. *)
Definition make_arn_model (region account_id resource_type resource_path : string) : string :=
  "arn:aws:elasticbeanstalk:" +:+ region +:+ ":" +:+ account_id +:+ ":"
    +:+ resource_type +:+ "/" +:+ resource_path.

Definition ACCOUNT_ID_model : string := "123456789012".

(** A registry for "us-east-1" with two applications; "app1" has the
    environment "env1" with one tag. *)
Definition example_calls : list call :=
  [ CallEBBackend "us-east-1";
    CallCreateApplication 0 "app1";
    CallCreateEnvironment 0 "app1" "env1" (Some "64bit Amazon Linux") (Some [mkTag "a" "1"]);
    CallCreateApplication 0 "app2" ].

Definition example_store : Store :=
  mkStore [mkEBBackend "us-east-1" 0]
    [[("app1", 0); ("app2", 1)]]
    [mkApplication 0 "app1" [("env1", 0)]; mkApplication 0 "app2" []]
    [mkEnvironment 0 "env1" (Some "64bit Amazon Linux") (Some [mkTag "a" "1"])].

Definition example_arn : string :=
  "arn:aws:elasticbeanstalk:us-east-1:123456789012:environment/app1/env1".

(** A registry in which the application "a/b" has the environment "c" with
    an empty tag list, registered before the application "a". *)
Definition colliding_calls : list call :=
  [ CallEBBackend "us-east-1";
    CallCreateApplication 0 "a/b";
    CallCreateEnvironment 0 "a/b" "c" None (Some []);
    CallCreateApplication 0 "a" ].

Definition colliding_store : Store :=
  mkStore [mkEBBackend "us-east-1" 0]
    [[("a/b", 0); ("a", 1)]]
    [mkApplication 0 "a/b" [("c", 0)]; mkApplication 0 "a" []]
    [mkEnvironment 0 "c" None (Some [])].

Definition colliding_arn : string :=
  "arn:aws:elasticbeanstalk:us-east-1:123456789012:environment/a/b/c".

(** [colliding_store] after [create_environment 0 "a" "b/c"] without tags,
    and then after [update_tags_for_resource] has added the tag k/v under the
    identifier of the new environment. *)
Definition colliding_store_1 : Store :=
  mkStore [mkEBBackend "us-east-1" 0]
    [[("a/b", 0); ("a", 1)]]
    [mkApplication 0 "a/b" [("c", 0)]; mkApplication 0 "a" [("b/c", 1)]]
    [mkEnvironment 0 "c" None (Some []); mkEnvironment 1 "b/c" None None].

Definition colliding_store_2 : Store :=
  mkStore [mkEBBackend "us-east-1" 0]
    [[("a/b", 0); ("a", 1)]]
    [mkApplication 0 "a/b" [("c", 0)]; mkApplication 0 "a" [("b/c", 1)]]
    [mkEnvironment 0 "c" None (Some [mkTag "k" "v"]); mkEnvironment 1 "b/c" None None].

(** ** Notions used by the further properties *)

(** The result [r] with its store replaced by [s]. *)
Definition with_store {A} (r : result A) (s : Store) : result A :=
  match r with
  | Ok a _ => Ok a s
  | Raise e _ => Raise e s
  end.

(** A computation whose outcome does not depend on the tags of the
    environments. *)
Definition tag_blind {A} (c : M A) : Prop :=
  forall s s', same_but_tags s s' -> c s' = with_store (c s) s'.

(** No application of the store has two environments under one key. *)
Definition env_keys_distinct (s : Store) : Prop :=
  forall a app, apps s !! a = Some app -> NoDup (dict_keys (environments app)).

(** The string has no slash. *)
Fixpoint no_slash (s : string) : bool :=
  match s with
  | EmptyString => true
  | String c s' => negb (String.eqb (String c EmptyString) "/") && no_slash s'
  end.

(** The backend on which a call operates; the constructor has none. *)
Definition call_self (c : call) : option addr :=
  match c with
  | CallEBBackend _ => None
  | CallReset self => Some self
  | CallCreateApplication self _ => Some self
  | CallCreateEnvironment self _ _ _ _ => Some self
  | CallUpdateTags self _ _ _ => Some self
  | CallListTags self _ => Some self
  end.

(** Everything that the backend at [j] holds in [s] (its attributes, its
    [applications] dict, the applications in it and their environments) is
    the same in [s']. *)
Definition agree_on (j : addr) (s s' : Store) : Prop :=
  forall b, backends s !! j = Some b ->
    backends s' !! j = Some b /\
    forall d, dicts s !! applications b = Some d ->
      dicts s' !! applications b = Some d /\
      forall k a app, In (k, a) d -> apps s !! a = Some app ->
        apps s' !! a = Some app /\
        forall ke e env, In (ke, e) (environments app) -> envs s !! e = Some env ->
          envs s' !! e = Some env.

(** Two registries, for "us-east-1" and for "eu-west-1", each with an
    application "app1". *)
Definition two_backends_calls : list call :=
  [ CallEBBackend "us-east-1";
    CallEBBackend "eu-west-1";
    CallCreateApplication 0 "app1";
    CallCreateApplication 1 "app1" ].

Definition two_backends_store : Store :=
  mkStore [mkEBBackend "us-east-1" 0; mkEBBackend "eu-west-1" 1]
    [[("app1", 0)]; [("app1", 1)]]
    [mkApplication 0 "app1" []; mkApplication 1 "app1" []]
    [].

(** A registry in which "app1", registered first, has no environment yet
    and "app2" has the environment "envB". *)
Definition ordering_calls : list call :=
  [ CallEBBackend "us-east-1";
    CallCreateApplication 0 "app1";
    CallCreateApplication 0 "app2";
    CallCreateEnvironment 0 "app2" "envB" None (Some []) ].

Definition ordering_store : Store :=
  mkStore [mkEBBackend "us-east-1" 0]
    [[("app1", 0); ("app2", 1)]]
    [mkApplication 0 "app1" []; mkApplication 0 "app2" [("envB", 0)]]
    [mkEnvironment 1 "envB" None (Some [])].
(** ** Dicts *)

Lemma dict_contains_get {V} (k : string) (d : dict V) :
  dict_contains k d = match dict_get k d with Some _ => true | None => false end.
Proof.
  induction d as [|[k' v] d IH]; simpl; [reflexivity|].
  destruct (String.eqb k' k); [reflexivity | exact IH].
Qed.

Lemma dict_get_None_keys {V} (k : string) (d : dict V) :
  dict_get k d = None <-> ~ In k (dict_keys d).
Proof.
  induction d as [|[k' v'] d IH]; simpl; [tauto|].
  destruct (String.eqb_spec k' k) as [->|Hne]; split.
  - discriminate.
  - intros H. exfalso. apply H. now left.
  - intros H [Heq|Hin]; [contradiction | now apply IH in H].
  - intros H. apply IH. tauto.
Qed.

Lemma In_dict_get {V} (k : string) (v : V) (d : dict V) :
  NoDup (dict_keys d) -> In (k, v) d -> dict_get k d = Some v.
Proof.
  induction d as [|[k' v'] d IH]; simpl; [tauto|].
  intros Hnd. apply NoDup_cons in Hnd as [Hnotin Hnd].
  intros [[= -> ->]|Hin].
  - now rewrite String.eqb_refl.
  - destruct (String.eqb_spec k' k) as [->|Hne]; [|now apply IH].
    exfalso. apply Hnotin. apply list_elem_of_In.
    change k with (fst (k, v)). now apply in_map.
Qed.

Lemma In_dict_set {V} (k k' : string) (v v' : V) (d : dict V) :
  In (k', v') (dict_set k v d) -> (k' = k /\ v' = v) \/ In (k', v') d.
Proof.
  induction d as [|[k0 v0] d IH]; simpl.
  - intros [[= <- <-]|[]]. now left.
  - destruct (String.eqb_spec k0 k) as [->|Hne]; simpl.
    + intros [[= <- <-]|Hin]; [now left | right; now right].
    + intros [Heq|Hin]; [right; now left|].
      destruct (IH Hin) as [?|?]; [now left | right; now right].
Qed.

Lemma dict_set_fresh {V} (k : string) (v : V) (d : dict V) :
  dict_get k d = None -> dict_set k v d = d ++ [(k, v)].
Proof.
  induction d as [|[k0 v0] d IH]; simpl; [reflexivity|].
  destruct (String.eqb k0 k); [discriminate|].
  intros H. now rewrite IH.
Qed.

Lemma dict_get_set {V} (k : string) (v : V) (d : dict V) :
  dict_get k (dict_set k v d) = Some v.
Proof.
  induction d as [|[k0 v0] d IH]; simpl.
  - now rewrite String.eqb_refl.
  - destruct (String.eqb k0 k) eqn:E; simpl; now rewrite E.
Qed.

Lemma dict_keys_set_fresh {V} (k : string) (v : V) (d : dict V) :
  dict_get k d = None -> dict_keys (dict_set k v d) = dict_keys d ++ [k].
Proof.
  intros H. rewrite dict_set_fresh by exact H.
  unfold dict_keys. now rewrite map_app.
Qed.
(** ** Computations that leave the store as it is *)

Lemma pure_ret {A} (a : A) : pure (ret a).
Proof. intros s. reflexivity. Qed.

Lemma pure_raise {A} (e : exn) : pure (@raise A e).
Proof. intros s. reflexivity. Qed.

Lemma pure_bind {A B} (c : M A) (k : A -> M B) :
  pure c -> (forall a, pure (k a)) -> pure (bind c k).
Proof.
  intros Hc Hk s. unfold bind. specialize (Hc s).
  destruct (c s) as [a s'|e s']; simpl in Hc; subst s'; [apply Hk | reflexivity].
Qed.

Lemma pure_except {A} (c h : M A) : pure c -> pure h -> pure (except_KeyError c h).
Proof.
  intros Hc Hh s. unfold except_KeyError. specialize (Hc s).
  destruct (c s) as [a s'|e s']; simpl in Hc; subst s'; [reflexivity|].
  destruct e; try reflexivity. apply Hh.
Qed.

Lemma pure_deref {A} (o : option A) : pure (deref o).
Proof. destruct o; [apply pure_ret | apply pure_raise]. Qed.

Lemma pure_get_backend a : pure (get_backend a).
Proof. intros s. unfold get_backend. apply pure_deref. Qed.
Lemma pure_get_dict a : pure (get_dict a).
Proof. intros s. unfold get_dict. apply pure_deref. Qed.
Lemma pure_get_app a : pure (get_app a).
Proof. intros s. unfold get_app. apply pure_deref. Qed.
Lemma pure_get_env a : pure (get_env a).
Proof. intros s. unfold get_env. apply pure_deref. Qed.

Create HintDb pure discriminated.
#[local] Hint Resolve pure_ret pure_raise pure_get_backend pure_get_dict
  pure_get_app pure_get_env pure_except : pure.
#[local] Hint Extern 1 (pure (bind _ _)) => apply pure_bind; [|intro] : pure.
#[local] Hint Extern 1 (pure (match ?x with _ => _ end)) => destruct x : pure.
#[local] Hint Extern 1 (pure (if ?x then _ else _)) => destruct x : pure.

Lemma pure_Application_region a : pure (Application_region a).
Proof. unfold Application_region. auto with pure. Qed.

Lemma pure_Application_arn a : pure (Application_arn a).
Proof. unfold Application_arn. auto using pure_Application_region with pure. Qed.

Lemma pure_Environment_application_name e : pure (Environment_application_name e).
Proof. unfold Environment_application_name. auto with pure. Qed.

Lemma pure_Environment_region e : pure (Environment_region e).
Proof. unfold Environment_region. auto using pure_Application_region with pure. Qed.

Lemma pure_Environment_environment_arn e : pure (Environment_environment_arn e).
Proof.
  unfold Environment_environment_arn.
  auto using pure_Environment_application_name, pure_Environment_region with pure.
Qed.

Lemma pure_applications_getitem self k : pure (applications_getitem self k).
Proof. unfold applications_getitem. auto 6 with pure. Qed.

Lemma pure_find_in_environments l arn : pure (find_in_environments l arn).
Proof.
  induction l as [|e l IH]; simpl; [apply pure_ret|].
  apply pure_bind; [apply pure_Environment_environment_arn|].
  intros a. destruct (String.eqb a arn); [apply pure_ret | exact IH].
Qed.

Lemma pure_find_in_applications self keys arn : pure (find_in_applications self keys arn).
Proof.
  induction keys as [|k keys IH]; simpl; [apply pure_ret|].
  apply pure_bind; [apply pure_applications_getitem|]. intros a.
  apply pure_bind; [apply pure_get_app|]. intros app.
  apply pure_bind; [apply pure_find_in_environments|].
  intros [env|]; [apply pure_ret | exact IH].
Qed.

Lemma pure_find_environment_by_arn self arn : pure (_find_environment_by_arn self arn).
Proof.
  unfold _find_environment_by_arn.
  auto 8 using pure_find_in_applications with pure.
Qed.

Lemma pure_list_tags_for_resource self arn : pure (list_tags_for_resource self arn).
Proof.
  unfold list_tags_for_resource.
  auto 8 using pure_find_environment_by_arn with pure.
Qed.

Lemma pure_describe_applications self : pure (describe_applications self).
Proof. unfold describe_applications. auto with pure. Qed.

Lemma pure_describe_environments_loop l acc : pure (describe_environments_loop l acc).
Proof.
  revert acc. induction l as [|a l IH]; intros acc; simpl; [apply pure_ret|].
  apply pure_bind; [apply pure_get_app|]. intros app. apply IH.
Qed.

Lemma pure_describe_environments self : pure (describe_environments self).
Proof.
  unfold describe_environments.
  apply pure_bind; [apply pure_describe_applications|].
  intros l. apply pure_describe_environments_loop.
Qed.
(** ** What each operation evaluates to *)

Ltac munfold :=
  unfold bind, ret, raise, deref, get_backend, get_dict, get_app, get_env,
    set_backend, set_dict, set_app, set_env, new_backend, new_dict, new_app,
    new_env, except_KeyError.

Ltac mrun :=
  repeat (munfold; cbn -[String.append];
          repeat match goal with
                 | H : _ !! _ = _ |- _ => rewrite H
                 | H : dict_contains _ _ = _ |- _ => rewrite H
                 | H : dict_get _ _ = _ |- _ => rewrite H
                 end).

Lemma Application_arn_eval s a app b :
  apps s !! a = Some app -> backends s !! backend app = Some b ->
  Application_arn a s =
  Ok (make_arn (region b) ACCOUNT_ID "application" (application_name app)) s.
Proof.
  intros Ha Hb. unfold Application_arn, Application_region. mrun. reflexivity.
Qed.

Lemma Environment_environment_arn_eval s e env app b :
  envs s !! e = Some env -> apps s !! application env = Some app ->
  backends s !! backend app = Some b ->
  Environment_environment_arn e s =
  Ok (make_arn (region b) ACCOUNT_ID "environment"
        (application_name app +:+ "/" +:+ environment_name env)) s.
Proof.
  intros He Ha Hb.
  unfold Environment_environment_arn, Environment_application_name,
    Environment_region, Application_region.
  mrun. reflexivity.
Qed.

Lemma create_application_eval s self name :
  create_application self name s =
  match backends s !! self with
  | None => Raise ReferenceError s
  | Some b =>
      match dicts s !! applications b with
      | None => Raise ReferenceError s
      | Some d =>
          if dict_contains name d
          then Raise (InvalidParameterValueError
                        ["Application " +:+ name +:+ " already exists."]) s
          else Ok (length (apps s))
                 (mkStore (backends s)
                    (<[applications b := dict_set name (length (apps s)) d]> (dicts s))
                    (apps s ++ [mkApplication self name []]) (envs s))
      end
  end.
Proof.
  unfold create_application, Application_init.
  destruct (backends s !! self) as [b|] eqn:Hb; mrun; [|reflexivity].
  destruct (dicts s !! applications b) as [d|] eqn:Hd; mrun; [|reflexivity].
  destruct (dict_contains name d) eqn:Hc; mrun; reflexivity.
Qed.

Lemma Application_create_environment_eval s app name stack tgs :
  Application_create_environment app name stack tgs s =
  match apps s !! app with
  | None => Raise ReferenceError s
  | Some a =>
      if dict_contains name (environments a)
      then Raise TypeError s
      else Ok (length (envs s))
             (mkStore (backends s) (dicts s)
                (<[app := mkApplication (backend a) (application_name a)
                            (dict_set name (length (envs s)) (environments a))]> (apps s))
                (envs s ++ [mkEnvironment app name stack tgs]))
  end.
Proof.
  unfold Application_create_environment, Environment_init.
  destruct (apps s !! app) as [a|] eqn:Ha; mrun; [|reflexivity].
  destruct (dict_contains name (environments a)) eqn:Hc; mrun; reflexivity.
Qed.

Lemma create_environment_eval s self name ename stack tgs :
  create_environment self name ename stack tgs s =
  match backends s !! self with
  | None => Raise ReferenceError s
  | Some b =>
      match dicts s !! applications b with
      | None => Raise ReferenceError s
      | Some d =>
          match dict_get name d with
          | None => Raise (InvalidParameterValueError
                             ["No Application named '" +:+ name +:+ "' found."]) s
          | Some app => Application_create_environment app ename stack tgs s
          end
      end
  end.
Proof.
  unfold create_environment, applications_getitem.
  destruct (backends s !! self) as [b|] eqn:Hb; mrun; [|reflexivity].
  destruct (dicts s !! applications b) as [d|] eqn:Hd; mrun; [|reflexivity].
  destruct (dict_get name d) as [app|] eqn:Hg; mrun; reflexivity.
Qed.

Lemma reset_eval s self :
  reset self s =
  match backends s !! self with
  | None => Raise ReferenceError s
  | Some b =>
      Ok tt (mkStore (<[self := mkEBBackend (region b) (length (dicts s))]> (backends s))
               (dicts s ++ [[]]) (apps s) (envs s))
  end.
Proof.
  unfold reset, EBBackend_init.
  destruct (backends s !! self) as [b|] eqn:Hb; mrun; reflexivity.
Qed.

Lemma EBBackend_new_eval s r :
  EBBackend_new r s =
  Ok (length (backends s))
    (mkStore (backends s ++ [mkEBBackend r (length (dicts s))])
       (dicts s ++ [[]]) (apps s) (envs s)).
Proof. reflexivity. Qed.
(** ** Every reachable store is well formed *)

Lemma wf_empty : wf empty_store.
Proof. split; simpl; intros; discriminate. Qed.

Lemma wf_EBBackend_new s r : wf s -> wf (store_of (EBBackend_new r s)).
Proof.
  intros W. rewrite EBBackend_new_eval. simpl.
  assert (Hfresh : forall j c, backends s !! j = Some c -> applications c <> length (dicts s)).
  { intros j c Hc. pose proof (wf_dict s W j c Hc). lia. }
  split; simpl.
  - intros self b Hb. rewrite length_app. simpl.
    apply lookup_snoc_Some in Hb as [[_ Hb]|[_ <-]]; simpl; [|lia].
    pose proof (wf_dict s W self b Hb). lia.
  - intros i j b c Hb Hc Heq.
    apply lookup_snoc_Some in Hb as [[_ Hb]|[-> <-]];
      apply lookup_snoc_Some in Hc as [[_ Hc]|[-> <-]]; simpl in Heq.
    + exact (wf_own s W i j b c Hb Hc Heq).
    + exfalso. exact (Hfresh _ _ Hb Heq).
    + exfalso. symmetry in Heq. exact (Hfresh _ _ Hc Heq).
    + reflexivity.
  - intros self b d Hb Hd.
    apply lookup_snoc_Some in Hb as [[_ Hb]|[_ <-]]; simpl in Hd;
      apply lookup_snoc_Some in Hd as [[Hlt Hd]|[Habs <-]]; try apply NoDup_nil_2.
    + exact (wf_keys s W self b d Hb Hd).
    + now apply Nat.lt_irrefl in Hlt.
  - intros self b d k a Hb Hd Hin.
    apply lookup_snoc_Some in Hb as [[_ Hb]|[_ <-]]; simpl in Hd;
      apply lookup_snoc_Some in Hd as [[Hlt Hd]|[Habs <-]]; try (now destruct Hin).
    + exact (wf_apps s W self b d k a Hb Hd Hin).
    + now apply Nat.lt_irrefl in Hlt.
  - exact (wf_envs s W).
  - intros a app Ha. rewrite length_app. simpl.
    pose proof (wf_backend s W a app Ha). lia.
Qed.

Lemma wf_reset s self : wf s -> wf (store_of (reset self s)).
Proof.
  intros W. rewrite reset_eval.
  destruct (backends s !! self) as [b0|] eqn:Hself; simpl; [|exact W].
  assert (Hfresh : forall j c, backends s !! j = Some c -> applications c <> length (dicts s)).
  { intros j c Hc. pose proof (wf_dict s W j c Hc). lia. }
  split; simpl.
  - intros i b Hb. rewrite length_app. simpl.
    apply list_lookup_insert_Some in Hb as [(_ & <- & _)|[_ Hb]]; simpl; [lia|].
    pose proof (wf_dict s W i b Hb). lia.
  - intros i j b c Hb Hc Heq.
    apply list_lookup_insert_Some in Hb as [(<- & <- & _)|[Hi Hb]];
      apply list_lookup_insert_Some in Hc as [(<- & <- & _)|[Hj Hc]]; simpl in Heq.
    + reflexivity.
    + exfalso. symmetry in Heq. exact (Hfresh _ _ Hc Heq).
    + exfalso. exact (Hfresh _ _ Hb Heq).
    + exact (wf_own s W i j b c Hb Hc Heq).
  - intros i b d Hb Hd.
    apply list_lookup_insert_Some in Hb as [(_ & <- & _)|[_ Hb]]; simpl in Hd;
      apply lookup_snoc_Some in Hd as [[Hlt Hd]|[Habs <-]]; try apply NoDup_nil_2.
    + now apply Nat.lt_irrefl in Hlt.
    + exact (wf_keys s W i b d Hb Hd).
  - intros i b d k a Hb Hd Hin.
    apply list_lookup_insert_Some in Hb as [(_ & <- & _)|[_ Hb]]; simpl in Hd;
      apply lookup_snoc_Some in Hd as [[Hlt Hd]|[Habs <-]]; try (now destruct Hin).
    + now apply Nat.lt_irrefl in Hlt.
    + exact (wf_apps s W i b d k a Hb Hd Hin).
  - exact (wf_envs s W).
  - intros a app Ha. rewrite length_insert. exact (wf_backend s W a app Ha).
Qed.

Lemma wf_create_application s self name : wf s -> wf (store_of (create_application self name s)).
Proof.
  intros W. rewrite create_application_eval.
  destruct (backends s !! self) as [b0|] eqn:Hself; simpl; [|exact W].
  destruct (dicts s !! applications b0) as [d0|] eqn:Hd0; simpl; [|exact W].
  rewrite dict_contains_get.
  destruct (dict_get name d0) eqn:Hfree; simpl; [exact W|].
  split; simpl.
  - intros i b Hb. rewrite length_insert. exact (wf_dict s W i b Hb).
  - exact (wf_own s W).
  - intros i b d Hb Hd.
    apply list_lookup_insert_Some in Hd as [(Heq & <- & _)|[_ Hd]].
    + rewrite dict_keys_set_fresh by exact Hfree.
      apply NoDup_app. split; [exact (wf_keys s W self b0 d0 Hself Hd0)|].
      split; [|apply NoDup_singleton].
      intros k Hk Hk'. apply list_elem_of_In in Hk.
      apply list_elem_of_singleton in Hk'. subst k.
      now apply dict_get_None_keys in Hfree.
    + exact (wf_keys s W i b d Hb Hd).
  - intros i b d k a Hb Hd Hin.
    apply list_lookup_insert_Some in Hd as [(Heq & <- & _)|[Hne Hd]].
    + assert (i = self) as -> by exact (wf_own s W i self b b0 Hb Hself (eq_sym Heq)).
      apply In_dict_set in Hin as [[-> ->]|Hin].
      * eexists. split; [apply list_lookup_middle; reflexivity|]. now simpl.
      * destruct (wf_apps s W self b0 d0 k a Hself Hd0 Hin) as (app & Ha & Hn & Hbk).
        exists app. split; [now apply lookup_app_l_Some | now split].
    + destruct (wf_apps s W i b d k a Hb Hd Hin) as (app & Ha & Hn & Hbk).
      exists app. split; [now apply lookup_app_l_Some | now split].
  - intros a app k e Ha Hin.
    apply lookup_snoc_Some in Ha as [[_ Ha]|[_ <-]]; [|now destruct Hin].
    exact (wf_envs s W a app k e Ha Hin).
  - intros a app Ha.
    apply lookup_snoc_Some in Ha as [[_ Ha]|[_ <-]]; simpl.
    + exact (wf_backend s W a app Ha).
    + exact (lookup_lt_Some _ _ _ Hself).
Qed.
Lemma wf_Application_create_environment s app name stack tgs :
  wf s -> wf (store_of (Application_create_environment app name stack tgs s)).
Proof.
  intros W. rewrite Application_create_environment_eval.
  destruct (apps s !! app) as [a0|] eqn:Happ; simpl; [|exact W].
  destruct (dict_contains name (environments a0)); simpl; [exact W|].
  split; simpl.
  - exact (wf_dict s W).
  - exact (wf_own s W).
  - exact (wf_keys s W).
  - intros i b d k a Hb Hd Hin.
    destruct (wf_apps s W i b d k a Hb Hd Hin) as (x & Ha & Hn & Hbk).
    destruct (decide (a = app)) as [->|Hne].
    + rewrite Happ in Ha. injection Ha as <-.
      eexists. split; [apply list_lookup_insert_eq; exact (lookup_lt_Some _ _ _ Happ)|].
      now simpl.
    + exists x. split; [now rewrite list_lookup_insert_ne | now split].
  - intros a x k e Ha Hin.
    apply list_lookup_insert_Some in Ha as [(<- & <- & _)|[Hne Ha]]; simpl in Hin.
    + apply In_dict_set in Hin as [[-> ->]|Hin].
      * eexists. split; [apply list_lookup_middle; reflexivity|]. now simpl.
      * destruct (wf_envs s W app a0 k e Happ Hin) as (env & He & Hn & Hap).
        exists env. split; [now apply lookup_app_l_Some | now split].
    + destruct (wf_envs s W a x k e Ha Hin) as (env & He & Hn & Hap).
      exists env. split; [now apply lookup_app_l_Some | now split].
  - intros a x Ha.
    apply list_lookup_insert_Some in Ha as [(<- & <- & _)|[Hne Ha]]; simpl.
    + exact (wf_backend s W app a0 Happ).
    + exact (wf_backend s W a x Ha).
Qed.

Lemma wf_create_environment s self name ename stack tgs :
  wf s -> wf (store_of (create_environment self name ename stack tgs s)).
Proof.
  intros W. rewrite create_environment_eval.
  destruct (backends s !! self) as [b|]; [|exact W].
  destruct (dicts s !! applications b) as [d|]; [|exact W].
  destruct (dict_get name d) as [app|]; [|exact W].
  now apply wf_Application_create_environment.
Qed.

(** Changing tags keeps the shape. *)
Lemma same_but_tags_refl s : same_but_tags s s.
Proof. now repeat split. Qed.

Lemma same_but_tags_trans s1 s2 s3 :
  same_but_tags s1 s2 -> same_but_tags s2 s3 -> same_but_tags s1 s3.
Proof.
  intros (B1 & D1 & A1 & E1) (B2 & D2 & A2 & E2).
  repeat split; congruence.
Qed.

Lemma same_but_tags_lookup s s' e env' :
  same_but_tags s s' -> envs s' !! e = Some env' ->
  exists env, envs s !! e = Some env /\
              environment_name env = environment_name env' /\
              application env = application env'.
Proof.
  intros (_ & _ & _ & HE) He.
  assert (H : map (fun e => with_tags e None) (envs s) !! e = Some (with_tags env' None)).
  { rewrite <- HE. change map with (@fmap list _). now rewrite list_lookup_fmap, He. }
  change map with (@fmap list _) in H. rewrite list_lookup_fmap in H.
  destruct (envs s !! e) as [env|]; [|discriminate].
  exists env. split; [reflexivity|].
  injection H as H1 H2 H3. now split.
Qed.

Lemma same_but_tags_sym s s' : same_but_tags s s' -> same_but_tags s' s.
Proof. intros (B & D & A & E). now repeat split. Qed.

Lemma wf_same_but_tags s s' : wf s -> same_but_tags s s' -> wf s'.
Proof.
  intros W HS. pose proof HS as (B & D & A & E).
  split; rewrite ?B, ?D, ?A.
  - exact (wf_dict s W).
  - exact (wf_own s W).
  - exact (wf_keys s W).
  - exact (wf_apps s W).
  - intros a app k e Ha Hin.
    destruct (wf_envs s W a app k e Ha Hin) as (env & He & Hn & Hap).
    destruct (same_but_tags_lookup s' s e env (same_but_tags_sym _ _ HS) He)
      as (env' & He' & Hn' & Hap').
    exists env'. split; [exact He' | split; congruence].
  - exact (wf_backend s W).
Qed.

Lemma same_but_tags_set s res e l :
  envs s !! res = Some e ->
  same_but_tags s (mkStore (backends s) (dicts s) (apps s)
                     (<[res := with_tags e (Some l)]> (envs s))).
Proof.
  intros He. repeat split; simpl.
  change map with (@fmap list _). rewrite list_fmap_insert. simpl.
  apply list_insert_id. now rewrite list_lookup_fmap, He.
Qed.

Lemma same_but_tags_add_tag s res tag : same_but_tags s (store_of (add_tag res tag s)).
Proof.
  unfold add_tag. munfold.
  destruct (envs s !! res) as [e|] eqn:He; simpl; [|apply same_but_tags_refl].
  destruct (tags e) as [l|]; simpl; [|apply same_but_tags_refl].
  destruct (first_with_key (tag_key tag) l) as [[i t]|]; simpl;
    now apply same_but_tags_set.
Qed.

Lemma same_but_tags_remove_tag s res key : same_but_tags s (store_of (remove_tag res key s)).
Proof.
  unfold remove_tag. munfold.
  destruct (envs s !! res) as [e|] eqn:He; simpl; [|apply same_but_tags_refl].
  destruct (tags e) as [l|]; simpl; [|apply same_but_tags_refl].
  destruct (first_with_key key l) as [[i t]|]; simpl; [|apply same_but_tags_refl].
  destruct (list_remove t l); simpl; [now apply same_but_tags_set | apply same_but_tags_refl].
Qed.

Lemma same_but_tags_for_each {A} (body : A -> M unit) (l : list A) :
  (forall x s, same_but_tags s (store_of (body x s))) ->
  forall s, same_but_tags s (store_of (for_each l body s)).
Proof.
  intros Hbody. induction l as [|x l IH]; intros s; simpl; [apply same_but_tags_refl|].
  unfold bind. specialize (Hbody x s).
  destruct (body x s) as [[] s1|e s1]; simpl in *; [|exact Hbody].
  exact (same_but_tags_trans _ _ _ Hbody (IH s1)).
Qed.

Lemma same_but_tags_update_tags s self arn add remove :
  same_but_tags s (store_of (update_tags_for_resource self arn add remove s)).
Proof.
  unfold update_tags_for_resource, bind at 1.
  pose proof (pure_except _ (raise (not_found_for_arn arn))
                (pure_find_environment_by_arn self arn) (pure_raise _) s) as Hp.
  destruct (except_KeyError _ _ s) as [res s0|e s0]; simpl in Hp; subst s0;
    [|apply same_but_tags_refl].
  unfold bind.
  pose proof (same_but_tags_for_each (add_tag res) add
                (fun x s => same_but_tags_add_tag s res x) s) as H1.
  destruct (for_each add (add_tag res) s) as [[] s1|e s1]; simpl in *; [|exact H1].
  exact (same_but_tags_trans _ _ _ H1
           (same_but_tags_for_each (remove_tag res) remove
              (fun x s => same_but_tags_remove_tag s res x) s1)).
Qed.

Lemma wf_run_call s c : wf s -> wf (run_call c s).
Proof.
  intros W. destruct c; simpl.
  - now apply wf_EBBackend_new.
  - now apply wf_reset.
  - now apply wf_create_application.
  - now apply wf_create_environment.
  - exact (wf_same_but_tags _ _ W (same_but_tags_update_tags _ _ _ _ _)).
  - now rewrite pure_list_tags_for_resource.
Qed.

Lemma reachable_wf s : reachable s -> wf s.
Proof.
  induction 1 as [|s c _ IH]; [exact wf_empty | now apply wf_run_call].
Qed.

Lemma reachable_run_calls cs s : reachable s -> reachable (run_calls cs s).
Proof.
  revert s. induction cs as [|c cs IH]; intros s Hs; simpl; [exact Hs|].
  apply IH. now constructor.
Qed.
(** ** Lookup by identifier *)

Lemma find_first {A} (p : A -> bool) (l : list A) (x : A) :
  find p l = Some x <->
  exists before after,
    l = before ++ x :: after /\ p x = true /\ forall y, In y before -> p y = false.
Proof.
  induction l as [|z l IH]; simpl.
  - split; [discriminate|]. intros (before & after & H & _). now destruct before.
  - destruct (p z) eqn:Hz; split.
    + intros [= <-]. exists [], l. now repeat split.
    + intros ([|y before] & after & H & Hx & Hb); simpl in H; injection H as <- H.
      * reflexivity.
      * rewrite (Hb z) in Hz; [discriminate | now left].
    + intros H. apply IH in H as (before & after & -> & Hx & Hb).
      exists (z :: before), after. repeat split; [exact Hx|].
      intros y [<-|Hy]; [exact Hz | now apply Hb].
    + intros ([|y before] & after & H & Hx & Hb); simpl in H; injection H as <- H.
      * congruence.
      * apply IH. exists before, after. repeat split; [exact H | exact Hx|].
        intros y' Hy'. apply Hb. now right.
Qed.

Lemma find_no {A} (p : A -> bool) (l : list A) :
  find p l = None <-> forall y, In y l -> p y = false.
Proof.
  induction l as [|z l IH]; simpl; [tauto|].
  destruct (p z) eqn:Hz; split.
  - discriminate.
  - intros H. rewrite (H z) in Hz; [discriminate | now left].
  - intros H y [<-|Hy]; [exact Hz | now apply IH].
  - intros H. apply IH. intros y Hy. apply H. now right.
Qed.

(** In a well-formed store every environment under a backend has an
    identifier. *)
Lemma wf_environment_arn s self b d k a app ke e :
  wf s -> backends s !! self = Some b -> dicts s !! applications b = Some d ->
  In (k, a) d -> apps s !! a = Some app -> In (ke, e) (environments app) ->
  Environment_environment_arn e s =
  Ok (make_arn (region b) ACCOUNT_ID "environment" (k +:+ "/" +:+ ke)) s.
Proof.
  intros W Hb Hd Hin Ha Hine.
  destruct (wf_apps s W self b d k a Hb Hd Hin) as (app' & Ha' & Hn & Hbk).
  rewrite Ha in Ha'. injection Ha' as <-.
  destruct (wf_envs s W a app ke e Ha Hine) as (env & He & Hne & Hap).
  subst k ke.
  apply (Environment_environment_arn_eval s e env app b); [exact He | | ]; congruence.
Qed.

Lemma In_dict_values {V} (v : V) (d : dict V) :
  In v (dict_values d) -> exists k, In (k, v) d.
Proof.
  unfold dict_values. intros H. apply in_map_iff in H as ([k v'] & Heq & Hin).
  simpl in Heq. subst v'. now exists k.
Qed.

Lemma all_environments_identifier s self b d e :
  wf s -> backends s !! self = Some b -> dicts s !! applications b = Some d ->
  In e (all_environments s d) -> exists arn, identifier_is s e arn.
Proof.
  intros W Hb Hd Hin. unfold all_environments in Hin.
  apply in_flat_map in Hin as (a & Ha & He).
  apply In_dict_values in Ha as (k & Hk).
  unfold environments_of in He.
  destruct (apps s !! a) as [app|] eqn:Happ; [|now destruct He].
  apply In_dict_values in He as (ke & Hke).
  eexists. exact (wf_environment_arn s self b d k a app ke e W Hb Hd Hk Happ Hke).
Qed.

Lemma find_in_environments_eval s l arn :
  (forall e, In e l -> exists a, identifier_is s e a) ->
  find_in_environments l arn s = Ok (find (arn_matches s arn) l) s.
Proof.
  induction l as [|e l IH]; intros H; simpl; [reflexivity|].
  destruct (H e (or_introl eq_refl)) as (a & Ha). unfold identifier_is in Ha.
  unfold bind, arn_matches. rewrite Ha.
  destruct (String.eqb a arn); [reflexivity|].
  apply IH. intros e' He'. apply H. now right.
Qed.

Lemma find_app {A} (p : A -> bool) (l1 l2 : list A) :
  find p (l1 ++ l2) = match find p l1 with Some x => Some x | None => find p l2 end.
Proof.
  induction l1 as [|x l1 IH]; simpl; [reflexivity|].
  now destruct (p x).
Qed.

Lemma applications_getitem_eval s self b d k :
  backends s !! self = Some b -> dicts s !! applications b = Some d ->
  applications_getitem self k s =
  match dict_get k d with Some a => Ok a s | None => Raise KeyError s end.
Proof.
  intros Hb Hd. unfold applications_getitem. mrun. now destruct (dict_get k d).
Qed.

Lemma find_in_applications_eval s self b d arn entries :
  wf s -> backends s !! self = Some b -> dicts s !! applications b = Some d ->
  (forall k a, In (k, a) entries -> In (k, a) d) ->
  find_in_applications self (dict_keys entries) arn s =
  Ok (find (arn_matches s arn) (all_environments s entries)) s.
Proof.
  intros W Hb Hd. induction entries as [|[k a] entries IH]; intros Hsub; [reflexivity|].
  assert (Hin : In (k, a) d) by (apply Hsub; now left).
  destruct (wf_apps s W self b d k a Hb Hd Hin) as (app & Ha & Hn & Hbk).
  cbn [dict_keys map fst find_in_applications].
  unfold bind at 1.
  rewrite (applications_getitem_eval s self b d k Hb Hd).
  rewrite (In_dict_get k a d (wf_keys s W self b d Hb Hd) Hin).
  unfold bind at 1. unfold get_app, deref. rewrite Ha. cbn [ret].
  unfold bind at 1. rewrite find_in_environments_eval.
  - unfold all_environments. cbn [dict_values map snd flat_map].
    rewrite find_app. unfold environments_of at 1. rewrite Ha.
    destruct (find (arn_matches s arn) (dict_values (environments app))); [reflexivity|].
    apply IH. intros k' a' H'. apply Hsub. now right.
  - intros e He. apply In_dict_values in He as (ke & Hke).
    eexists. exact (wf_environment_arn s self b d k a app ke e W Hb Hd Hin Ha Hke).
Qed.

Lemma find_environment_by_arn_eval s self b d arn :
  wf s -> backends s !! self = Some b -> dicts s !! applications b = Some d ->
  _find_environment_by_arn self arn s =
  match find (arn_matches s arn) (all_environments s d) with
  | Some env => Ok env s
  | None => Raise KeyError s
  end.
Proof.
  intros W Hb Hd. unfold _find_environment_by_arn.
  unfold bind at 1. unfold get_backend, deref. rewrite Hb. cbn [ret].
  unfold bind at 1. unfold get_dict, deref. rewrite Hd. cbn [ret].
  unfold bind.
  rewrite (find_in_applications_eval s self b d arn d W Hb Hd) by auto.
  now destruct (find _ _).
Qed.

Lemma describe_environments_loop_eval s l acc :
  (forall a, In a l -> is_Some (apps s !! a)) ->
  describe_environments_loop l acc s = Ok (acc ++ flat_map (environments_of s) l) s.
Proof.
  revert acc. induction l as [|a l IH]; intros acc H; simpl.
  - now rewrite app_nil_r.
  - destruct (H a (or_introl eq_refl)) as (app & Ha).
    unfold bind, get_app, deref. rewrite Ha. cbn [ret].
    rewrite IH by (intros; apply H; now right).
    unfold environments_of at 2. rewrite Ha. now rewrite <- app_assoc.
Qed.

Lemma describe_environments_eval s self b d :
  wf s -> backends s !! self = Some b -> dicts s !! applications b = Some d ->
  describe_environments self s = Ok (all_environments s d) s.
Proof.
  intros W Hb Hd. unfold describe_environments, describe_applications.
  mrun. rewrite describe_environments_loop_eval; [reflexivity|].
  intros a Ha. apply In_dict_values in Ha as (k & Hk).
  destruct (wf_apps s W self b d k a Hb Hd Hk) as (app & Happ & _). now exists app.
Qed.

Lemma arn_matches_true s arn e :
  arn_matches s arn e = true <-> identifier_is s e arn.
Proof.
  unfold arn_matches, identifier_is.
  pose proof (pure_Environment_environment_arn e s) as Hp.
  destruct (Environment_environment_arn e s) as [a s'|x s']; simpl in Hp; subst s'.
  - destruct (String.eqb_spec a arn) as [->|Hne]; split; try easy. intros [= ->]. easy.
  - split; discriminate.
Qed.

Lemma arn_matches_false s arn e :
  (exists a, identifier_is s e a) ->
  arn_matches s arn e = false <-> exists a, identifier_is s e a /\ a <> arn.
Proof.
  intros (a & Ha). unfold arn_matches. unfold identifier_is in *. rewrite Ha.
  destruct (String.eqb_spec a arn) as [->|Hne]; split.
  - discriminate.
  - intros (a' & Ha' & Hne). injection Ha' as <-. contradiction.
  - intros _. now exists a.
  - reflexivity.
Qed.
(** ** Tags *)

Lemma first_with_key_key k l i t : first_with_key k l = Some (i, t) -> tag_key t = k.
Proof.
  revert i. induction l as [|u l IH]; intros i; simpl; [discriminate|].
  unfold has_key. destruct (String.eqb_spec (tag_key u) k) as [Hk|Hk].
  - now intros [= <- <-].
  - destruct (first_with_key k l) as [[j v]|]; [|discriminate].
    intros [= <- <-]. now apply (IH j).
Qed.

(** The first loop body does to the list what the specification says. *)
Lemma upsert_refines tag l :
  match first_with_key (tag_key tag) l with
  | None => l ++ [tag]
  | Some (i, t) => <[i := mkTag (tag_key t) (tag_value tag)]> l
  end = spec_upsert tag l.
Proof.
  induction l as [|u l IH]; simpl; [reflexivity|].
  unfold has_key. destruct (String.eqb (tag_key u) (tag_key tag)); [reflexivity|].
  destruct (first_with_key (tag_key tag) l) as [[i t]|]; simpl; now rewrite <- IH.
Qed.

Lemma Tag_eqb_refl t : Tag_eqb t t = true.
Proof. unfold Tag_eqb. now rewrite !String.eqb_refl. Qed.

(** The second loop body as well: [remove] takes out the very tag that the
    search found, since no tag before it has its key. *)
Lemma remove_refines key l :
  match first_with_key key l with
  | None => Some l
  | Some (_, t) => list_remove t l
  end = Some (spec_remove key l).
Proof.
  induction l as [|u l IH]; simpl; [reflexivity|].
  unfold has_key. destruct (String.eqb_spec (tag_key u) key) as [Hk|Hk].
  - now rewrite Tag_eqb_refl.
  - destruct (first_with_key key l) as [[i t]|] eqn:Hf.
    + assert (Tag_eqb u t = false) as ->.
      { unfold Tag_eqb. apply first_with_key_key in Hf. subst key.
        apply String.eqb_neq in Hk. now rewrite Hk. }
      now rewrite IH.
    + now injection IH as <-.
Qed.



Lemma spec_upsert_keys tag l :
  map tag_key (spec_upsert tag l) =
  if existsb (has_key (tag_key tag)) l then map tag_key l
  else map tag_key l ++ [tag_key tag].
Proof.
  induction l as [|u l IH]; simpl; [reflexivity|].
  unfold has_key at 1. destruct (String.eqb (tag_key u) (tag_key tag)); simpl; [reflexivity|].
  rewrite IH. now destruct (existsb _ l).
Qed.

Lemma spec_upsert_NoDup tag l :
  NoDup (map tag_key l) -> NoDup (map tag_key (spec_upsert tag l)).
Proof.
  intros Hnd. rewrite spec_upsert_keys.
  destruct (existsb (has_key (tag_key tag)) l) eqn:Hex; [exact Hnd|].
  apply NoDup_app. split; [exact Hnd|]. split; [|apply NoDup_singleton].
  intros k Hk Hk'. apply list_elem_of_singleton in Hk'. subst k.
  apply list_elem_of_In, in_map_iff in Hk as (u & Hu & Hin).
  assert (existsb (has_key (tag_key tag)) l = true); [|congruence].
  apply existsb_exists. exists u. split; [exact Hin|].
  unfold has_key. rewrite Hu. apply String.eqb_refl.
Qed.

Lemma spec_upsert_all_NoDup adds l :
  NoDup (map tag_key l) -> NoDup (map tag_key (spec_upsert_all adds l)).
Proof.
  revert l. induction adds as [|tag adds IH]; intros l H; simpl; [exact H|].
  apply IH. now apply spec_upsert_NoDup.
Qed.



(** *** Stores that differ in the tags of one environment *)

Lemma with_tags_id e : with_tags e (tags e) = e.
Proof. now destruct e. Qed.

Lemma store_with_tags_id s res e l :
  envs s !! res = Some e -> tags e = Some l -> store_with_tags s res l = s.
Proof.
  intros He Hl. unfold store_with_tags. rewrite He, <- Hl, with_tags_id.
  rewrite list_insert_id by exact He. now destruct s.
Qed.

Lemma store_with_tags_lookup s res e l :
  envs s !! res = Some e ->
  envs (store_with_tags s res l) !! res = Some (with_tags e (Some l)).
Proof.
  intros He. unfold store_with_tags. rewrite He. simpl.
  apply list_lookup_insert_eq. exact (lookup_lt_Some _ _ _ He).
Qed.

Lemma store_with_tags_twice s res e l l' :
  envs s !! res = Some e ->
  store_with_tags (store_with_tags s res l) res l' = store_with_tags s res l'.
Proof.
  intros He. unfold store_with_tags at 1.
  rewrite (store_with_tags_lookup s res e l He).
  unfold store_with_tags. rewrite He. simpl.
  now rewrite list_insert_insert_eq.
Qed.

Lemma add_tag_eval s res e l tag :
  envs s !! res = Some e -> tags e = Some l ->
  add_tag res tag s = Ok tt (store_with_tags s res (spec_upsert tag l)).
Proof.
  intros He Hl. unfold add_tag, store_with_tags. munfold. rewrite He. cbn. rewrite Hl.
  rewrite <- upsert_refines.
  now destruct (first_with_key (tag_key tag) l) as [[i t]|].
Qed.

Lemma remove_tag_eval s res e l key :
  envs s !! res = Some e -> tags e = Some l ->
  remove_tag res key s = Ok tt (store_with_tags s res (spec_remove key l)).
Proof.
  intros He Hl. unfold remove_tag. munfold. rewrite He. cbn. rewrite Hl.
  pose proof (remove_refines key l) as R.
  destruct (first_with_key key l) as [[i t]|].
  - rewrite R. unfold store_with_tags. now rewrite He.
  - injection R as <-. now rewrite (store_with_tags_id s res e l).
Qed.

Lemma for_each_add_tag_eval adds s res e l :
  envs s !! res = Some e -> tags e = Some l ->
  for_each adds (add_tag res) s = Ok tt (store_with_tags s res (spec_upsert_all adds l)).
Proof.
  revert s e l. induction adds as [|tag adds IH]; intros s e l He Hl; simpl.
  - now rewrite (store_with_tags_id s res e l).
  - unfold bind. rewrite (add_tag_eval s res e l tag He Hl).
    rewrite (IH _ _ (spec_upsert tag l) (store_with_tags_lookup s res e _ He) eq_refl).
    now rewrite (store_with_tags_twice s res e).
Qed.

Lemma for_each_remove_tag_eval removes s res e l :
  envs s !! res = Some e -> tags e = Some l ->
  for_each removes (remove_tag res) s =
  Ok tt (store_with_tags s res (spec_remove_all removes l)).
Proof.
  revert s e l. induction removes as [|key removes IH]; intros s e l He Hl; simpl.
  - now rewrite (store_with_tags_id s res e l).
  - unfold bind. rewrite (remove_tag_eval s res e l key He Hl).
    rewrite (IH _ _ (spec_remove key l) (store_with_tags_lookup s res e _ He) eq_refl).
    now rewrite (store_with_tags_twice s res e).
Qed.

Lemma update_tags_eval s self arn res e l adds removes :
  _find_environment_by_arn self arn s = Ok res s ->
  envs s !! res = Some e -> tags e = Some l ->
  update_tags_for_resource self arn adds removes s =
  Ok tt (store_with_tags s res (spec_remove_all removes (spec_upsert_all adds l))).
Proof.
  intros Hf He Hl. unfold update_tags_for_resource.
  unfold bind at 1. unfold except_KeyError. rewrite Hf.
  unfold bind. rewrite (for_each_add_tag_eval adds s res e l He Hl).
  rewrite (for_each_remove_tag_eval removes _ res _ (spec_upsert_all adds l)
             (store_with_tags_lookup s res e _ He) eq_refl).
  now rewrite (store_with_tags_twice s res e).
Qed.

(** On an environment without a tag list the first round of either loop
    raises. *)
Lemma update_tags_None s self arn res e adds removes :
  _find_environment_by_arn self arn s = Ok res s ->
  envs s !! res = Some e -> tags e = None ->
  adds <> [] \/ removes <> [] ->
  update_tags_for_resource self arn adds removes s = Raise TypeError s.
Proof.
  intros Hf He Hl Hne. unfold update_tags_for_resource.
  unfold bind at 1. unfold except_KeyError. rewrite Hf.
  destruct adds as [|tag adds]; simpl.
  - destruct removes as [|key removes]; [now destruct Hne|].
    unfold remove_tag. mrun. now rewrite Hl.
  - unfold add_tag. mrun. now rewrite Hl.
Qed.
(** ** Properties of the registry *)

Lemma find_matches_Some s l arn env :
  (forall e, In e l -> exists a, identifier_is s e a) ->
  find (arn_matches s arn) l = Some env <-> first_match s l arn env.
Proof.
  intros Hid. rewrite find_first. unfold first_match, no_match.
  split; intros (before & after & -> & Hx & Hb); exists before, after;
    (split; [reflexivity|]); (split; [now apply arn_matches_true|]).
  - intros y Hy. apply arn_matches_false; [|now apply Hb].
    apply Hid, in_or_app. now left.
  - intros y Hy. apply arn_matches_false; [|now apply Hb].
    apply Hid, in_or_app. now left.
Qed.

Lemma find_matches_None s l arn :
  (forall e, In e l -> exists a, identifier_is s e a) ->
  find (arn_matches s arn) l = None <-> no_match s l arn.
Proof.
  intros Hid. rewrite find_no. unfold no_match.
  split; intros H y Hy; apply arn_matches_false; auto.
Qed.

(** The two loops of [update_tags_for_resource] never raise
    [ResourceNotFoundException]. *)
Lemma add_tag_raise res tag s args s' :
  add_tag res tag s <> Raise (ResourceNotFoundException args) s'.
Proof.
  unfold add_tag. munfold.
  destruct (envs s !! res) as [e|]; simpl; [|discriminate].
  destruct (tags e) as [l|]; [|discriminate].
  now destruct (first_with_key (tag_key tag) l) as [[i t]|].
Qed.

Lemma remove_tag_raise res key s args s' :
  remove_tag res key s <> Raise (ResourceNotFoundException args) s'.
Proof.
  unfold remove_tag. munfold.
  destruct (envs s !! res) as [e|]; simpl; [|discriminate].
  destruct (tags e) as [l|]; [|discriminate].
  destruct (first_with_key key l) as [[i t]|]; [|discriminate].
  now destruct (list_remove t l).
Qed.

Lemma for_each_raise {A} (body : A -> M unit) l args :
  (forall x s s', body x s <> Raise (ResourceNotFoundException args) s') ->
  forall s s', for_each l body s <> Raise (ResourceNotFoundException args) s'.
Proof.
  intros Hbody. induction l as [|x l IH]; intros s s'; simpl; [discriminate|].
  unfold bind. specialize (Hbody x s).
  destruct (body x s) as [[] s1|e s1]; [apply IH | apply Hbody].
Qed.

Lemma tag_loops_raise res add remove s args s' :
  (let* _ := for_each add (add_tag res) in for_each remove (remove_tag res)) s
  <> Raise (ResourceNotFoundException args) s'.
Proof.
  unfold bind.
  pose proof (for_each_raise (add_tag res) add args
                (fun x s s' => add_tag_raise res x s args s') s) as H.
  destruct (for_each add (add_tag res) s) as [[] s1|e s1]; [|apply H].
  apply for_each_raise. intros x s2 s3. apply remove_tag_raise.
Qed.

(** C1. In a reachable store, for a backend with region [region b], an
    application named [application_name app] that it holds and an environment
    named [environment_name env] of that application, [environment_arn]
    returns the ARN built from the region, the account placeholder,
    "environment" and the two names joined by a slash, and [arn] returns the
    ARN built from the region, the account placeholder, "application" and the
    application name.  Neither changes the store, and two calls in a row
    return the same string. *)
Theorem identifier_derivation s self b d ka a app ke e env :
  reachable s ->
  backends s !! self = Some b -> dicts s !! applications b = Some d ->
  In (ka, a) d -> apps s !! a = Some app ->
  In (ke, e) (environments app) -> envs s !! e = Some env ->
  Environment_environment_arn e s =
    Ok (environment_identifier (region b) (application_name app) (environment_name env)) s /\
  Application_arn a s = Ok (application_identifier (region b) (application_name app)) s /\
  (let* x := Environment_environment_arn e in
   let* y := Environment_environment_arn e in ret (x, y)) s =
    Ok (environment_identifier (region b) (application_name app) (environment_name env),
        environment_identifier (region b) (application_name app) (environment_name env)) s /\
  (let* x := Application_arn a in
   let* y := Application_arn a in ret (x, y)) s =
    Ok (application_identifier (region b) (application_name app),
        application_identifier (region b) (application_name app)) s.
Proof.
  intros R Hb Hd Hin Ha Hine He. apply reachable_wf in R.
  destruct (wf_apps s R self b d ka a Hb Hd Hin) as (app' & Ha' & Hn & Hbk).
  rewrite Ha in Ha'. injection Ha' as <-.
  destruct (wf_envs s R a app ke e Ha Hine) as (env' & He' & Hne & Hap).
  rewrite He in He'. injection He' as <-.
  assert (HE : Environment_environment_arn e s =
               Ok (environment_identifier (region b) (application_name app)
                     (environment_name env)) s).
  { apply (Environment_environment_arn_eval s e env app b); congruence. }
  assert (HA : Application_arn a s =
               Ok (application_identifier (region b) (application_name app)) s).
  { apply (Application_arn_eval s a app b); congruence. }
  repeat split; [exact HE | exact HA | |]; unfold bind; now rewrite ?HE, ?HA.
Qed.

(** C9. In every store reached by constructing backends and calling
    [create_application], [create_environment], [update_tags_for_resource],
    [list_tags_for_resource] and [reset], each application of a backend is
    stored under a key equal to its own [application_name], and each
    environment of such an application is stored under a key equal to its own
    [environment_name]. *)
Theorem keyed_by_own_name s self b d k a :
  reachable s ->
  backends s !! self = Some b -> dicts s !! applications b = Some d ->
  In (k, a) d ->
  exists app,
    apps s !! a = Some app /\ application_name app = k /\
    forall ke e, In (ke, e) (environments app) ->
      exists env, envs s !! e = Some env /\ environment_name env = ke.
Proof.
  intros R Hb Hd Hin. apply reachable_wf in R.
  destruct (wf_apps s R self b d k a Hb Hd Hin) as (app & Ha & Hn & _).
  exists app. repeat split; [exact Ha | exact Hn|].
  intros ke e Hine.
  destruct (wf_envs s R a app ke e Ha Hine) as (env & He & Hne & _).
  now exists env.
Qed.

(** C2. In a reachable store, for a backend whose environments are listed by
    [describe_environments] as [all_environments s d] (application
    registration order, then environment registration order):
    [_find_environment_by_arn] returns [env] exactly when [env] is the first
    environment of that list whose [environment_arn] equals [arn], and then
    [list_tags_for_resource] answers with the tags of [env]; it raises
    [KeyError] exactly when no environment of the list has that identifier,
    and that is exactly when [list_tags_for_resource] and
    [update_tags_for_resource] raise [ResourceNotFoundException]. *)
Theorem find_environment_by_identifier s self b d arn :
  reachable s ->
  backends s !! self = Some b -> dicts s !! applications b = Some d ->
  describe_environments self s = Ok (all_environments s d) s /\
  (forall env, _find_environment_by_arn self arn s = Ok env s <->
               first_match s (all_environments s d) arn env) /\
  (forall env, first_match s (all_environments s d) arn env ->
     exists e, envs s !! env = Some e /\
               list_tags_for_resource self arn s = Ok (arn, tags e) s) /\
  (_find_environment_by_arn self arn s = Raise KeyError s <->
   no_match s (all_environments s d) arn) /\
  (list_tags_for_resource self arn s = Raise (not_found_for_arn arn) s <->
   no_match s (all_environments s d) arn) /\
  (forall add remove,
     update_tags_for_resource self arn add remove s = Raise (not_found_for_arn arn) s <->
     no_match s (all_environments s d) arn).
Proof.
  intros R Hb Hd. apply reachable_wf in R.
  pose proof (find_environment_by_arn_eval s self b d arn R Hb Hd) as Hfind.
  assert (Hid : forall e, In e (all_environments s d) -> exists a, identifier_is s e a).
  { intros e. exact (all_environments_identifier s self b d e R Hb Hd). }
  pose proof (find_matches_Some s (all_environments s d) arn) as HS.
  pose proof (find_matches_None s (all_environments s d) arn Hid) as HN.
  split; [exact (describe_environments_eval s self b d R Hb Hd)|].
  destruct (find (arn_matches s arn) (all_environments s d)) as [res|] eqn:Hres.
  - assert (Hno : ~ no_match s (all_environments s d) arn).
    { intros H. apply HN in H. discriminate. }
    assert (Hres' : first_match s (all_environments s d) arn res) by now apply HS.
    destruct Hres' as (before & after & Hall & Hidres & _).
    unfold identifier_is, Environment_environment_arn, bind at 1,
      Environment_application_name, bind at 1, get_env, deref in Hidres.
    destruct (envs s !! res) as [eres|] eqn:Heres; [|discriminate]. clear Hidres.
    assert (Hlist : list_tags_for_resource self arn s = Ok (arn, tags eres) s).
    { unfold list_tags_for_resource, bind at 1, except_KeyError. rewrite Hfind.
      unfold bind, get_env, deref. now rewrite Heres. }
    repeat split.
    + intros H. apply HS; [exact Hid|]. congruence.
    + intros H. apply HS in H; [|exact Hid]. congruence.
    + intros env H. apply HS in H; [|exact Hid]. injection H as <-.
      now exists eres.
    + rewrite Hfind. discriminate.
    + intros H. contradiction.
    + rewrite Hlist. discriminate.
    + intros H. contradiction.
    + intros H. exfalso. revert H.
      unfold update_tags_for_resource, bind at 1, except_KeyError. rewrite Hfind.
      apply tag_loops_raise.
    + intros H. contradiction.
  - assert (Hno : no_match s (all_environments s d) arn) by now apply HN.
    assert (Hlist : list_tags_for_resource self arn s = Raise (not_found_for_arn arn) s).
    { unfold list_tags_for_resource, bind at 1, except_KeyError. now rewrite Hfind. }
    repeat split; try (intros; assumption).
    + rewrite Hfind. discriminate.
    + intros H. apply HS in H; [discriminate | exact Hid].
    + intros env H. apply HS in H; [discriminate | exact Hid].
    + intros _. unfold update_tags_for_resource, bind at 1, except_KeyError.
      now rewrite Hfind.
Qed.
(** C5. For a backend of the store and a name: after a first call
    [create_application self name], whatever its outcome, a second call with
    the same name raises [InvalidParameterValueError] with the message
    "Application <name> already exists." and leaves the store as the first
    call left it; the name is still registered there, and it is registered
    to the application that the first call returned when it succeeded. *)
Theorem create_application_twice s self b d name :
  backends s !! self = Some b -> dicts s !! applications b = Some d ->
  create_application self name (store_of (create_application self name s)) =
    Raise (InvalidParameterValueError ["Application " +:+ name +:+ " already exists."])
      (store_of (create_application self name s)) /\
  exists app,
    applications_getitem self name (store_of (create_application self name s)) =
      Ok app (store_of (create_application self name s)) /\
    forall a s1, create_application self name s = Ok a s1 -> a = app.
Proof.
  intros Hb Hd. rewrite (create_application_eval s), Hb, Hd.
  rewrite dict_contains_get.
  destruct (dict_get name d) as [app|] eqn:Hg; simpl.
  - split.
    + rewrite create_application_eval, Hb, Hd, dict_contains_get, Hg. reflexivity.
    + exists app. split; [|discriminate].
      rewrite (applications_getitem_eval s self b d name Hb Hd), Hg. reflexivity.
  - assert (Hd' : <[applications b := dict_set name (length (apps s)) d]> (dicts s)
                    !! applications b = Some (dict_set name (length (apps s)) d)).
    { apply list_lookup_insert_eq. exact (lookup_lt_Some _ _ _ Hd). }
    split.
    + rewrite create_application_eval. simpl. rewrite Hb, Hd'.
      rewrite dict_contains_get, dict_get_set. reflexivity.
    + exists (length (apps s)). split; [|now intros a s1 [= <- _]].
      erewrite applications_getitem_eval; [|exact Hb|exact Hd'].
      now rewrite dict_get_set.
Qed.

(** C3, as amended.  For a backend of the store: when the application name
    is not registered, [create_environment] raises
    [InvalidParameterValueError] (the class that is also raised for a
    duplicate name, not [ResourceNotFoundException]) with the message
    "No Application named '<name>' found." and leaves the store unchanged;
    when the name is registered to [app], the call is the call of
    [Application.create_environment] on [app], so that whatever that call
    raises reaches the caller unchanged. *)
Theorem create_environment_delegates s self b d name ename stack tgs :
  backends s !! self = Some b -> dicts s !! applications b = Some d ->
  (dict_get name d = None ->
   create_environment self name ename stack tgs s =
   Raise (InvalidParameterValueError ["No Application named '" +:+ name +:+ "' found."]) s) /\
  (forall app, dict_get name d = Some app ->
   create_environment self name ename stack tgs s =
   Application_create_environment app ename stack tgs s).
Proof.
  intros Hb Hd. rewrite create_environment_eval, Hb, Hd.
  split; [intros -> | intros app ->]; reflexivity.
Qed.

(** Creating an environment whose name the application already has raises
    [TypeError], for every application and every name: the exception class
    is called without its message.  A name that the application does not
    have yet is accepted. *)
Lemma Application_create_environment_twice s app name stack tgs env s1 stack' tgs' :
  Application_create_environment app name stack tgs s = Ok env s1 ->
  Application_create_environment app name stack' tgs' s1 = Raise TypeError s1.
Proof.
  rewrite Application_create_environment_eval.
  destruct (apps s !! app) as [a|] eqn:Ha; [|discriminate].
  destruct (dict_contains name (environments a)); [discriminate|].
  intros [= <- <-]. rewrite Application_create_environment_eval. simpl.
  rewrite list_lookup_insert_eq by exact (lookup_lt_Some _ _ _ Ha). simpl.
  now rewrite dict_contains_get, dict_get_set.
Qed.

Lemma Application_create_environment_fresh s app a name stack tgs :
  apps s !! app = Some a -> dict_get name (environments a) = None ->
  exists s1, Application_create_environment app name stack tgs s = Ok (length (envs s)) s1.
Proof.
  intros Ha Hg. rewrite Application_create_environment_eval, Ha, dict_contains_get, Hg.
  eexists. reflexivity.
Qed.

(** C4, at a concrete input.  In the example registry, where "app1" has the
    environment "env1" and "app2" has none: creating "env1" under "app1"
    again raises [TypeError], because the exception class is called without
    its message, so the call fails with neither of the two error kinds of
    the registry and the conflicting name is not carried; creating "env1"
    under "app2" succeeds; and the sibling [create_application] does raise
    [InvalidParameterValueError] with the name of a duplicate application
    in its message. *)
Theorem create_environment_duplicate_raises_TypeError :
  create_environment 0 "app1" "env1" None None example_store =
    Raise TypeError example_store /\
  (forall args, TypeError <> InvalidParameterValueError args) /\
  (exists s1, create_environment 0 "app2" "env1" None None example_store = Ok 1 s1) /\
  create_application 0 "app1" example_store =
    Raise (InvalidParameterValueError ["Application app1 already exists."]) example_store.
Proof.
  split; [reflexivity|]. split; [discriminate|]. split; [|reflexivity].
  eexists. reflexivity.
Qed.



(** C8. In a reachable store, [reset] on a backend succeeds; afterwards the
    backend has the region it had and its [applications] attribute is a new,
    empty dict: an address that the store did not hold before, while the dict
    it had before, like every other dict, application and environment of the
    store, is left as it was.  After the reset [describe_applications]
    returns nothing, and for every identifier [_find_environment_by_arn]
    raises [KeyError], which [list_tags_for_resource] and
    [update_tags_for_resource] turn into [ResourceNotFoundException]. *)
Theorem reset_replaces_collections s self b :
  reachable s -> backends s !! self = Some b ->
  exists s',
    reset self s = Ok tt s' /\
    backends s' !! self = Some (mkEBBackend (region b) (length (dicts s))) /\
    dicts s !! length (dicts s) = None /\
    dicts s' !! length (dicts s) = Some [] /\
    applications b <> length (dicts s) /\
    (forall i d, dicts s !! i = Some d -> dicts s' !! i = Some d) /\
    apps s' = apps s /\ envs s' = envs s /\
    describe_applications self s' = Ok [] s' /\
    forall arn,
      _find_environment_by_arn self arn s' = Raise KeyError s' /\
      list_tags_for_resource self arn s' = Raise (not_found_for_arn arn) s' /\
      forall add remove,
        update_tags_for_resource self arn add remove s' =
        Raise (not_found_for_arn arn) s'.
Proof.
  intros R Hb. apply reachable_wf in R.
  rewrite reset_eval, Hb. eexists. split; [reflexivity|]. simpl.
  assert (Hb' : <[self := mkEBBackend (region b) (length (dicts s))]> (backends s) !! self
                = Some (mkEBBackend (region b) (length (dicts s)))).
  { apply list_lookup_insert_eq. exact (lookup_lt_Some _ _ _ Hb). }
  assert (Hd' : (dicts s ++ [[]]) !! length (dicts s) = Some ([] : dict addr)).
  { now apply list_lookup_middle. }
  assert (Hfind : forall arn,
    _find_environment_by_arn self arn
      (mkStore (<[self := mkEBBackend (region b) (length (dicts s))]> (backends s))
         (dicts s ++ [[]]) (apps s) (envs s)) =
    Raise KeyError
      (mkStore (<[self := mkEBBackend (region b) (length (dicts s))]> (backends s))
         (dicts s ++ [[]]) (apps s) (envs s))).
  { intros arn. unfold _find_environment_by_arn. munfold. simpl.
    rewrite Hb'. simpl. rewrite Hd'. reflexivity. }
  split; [exact Hb'|]. split; [now apply lookup_ge_None_2|]. split; [exact Hd'|].
  split; [pose proof (wf_dict s R self b Hb); lia|].
  split; [intros i d Hi; now apply lookup_app_l_Some|].
  split; [reflexivity|]. split; [reflexivity|]. split.
  - unfold describe_applications. munfold. simpl. rewrite Hb'. simpl.
    rewrite Hd'. reflexivity.
  - intros arn. split; [apply Hfind|]. split.
    + unfold list_tags_for_resource, bind at 1, except_KeyError. now rewrite Hfind.
    + intros add remove.
      unfold update_tags_for_resource, bind at 1, except_KeyError. now rewrite Hfind.
Qed.

(** C10, as amended.  For an environment [env] that [create_environment]
    has just created without a tag list, and an identifier [arn] that is the
    identifier of [env] and resolves to [env]: [update_tags_for_resource]
    with at least one tag to add raises [TypeError], which is neither of the
    two exception classes of the registry, and leaves the store
    unchanged. *)
Theorem update_tags_without_tag_list s self name ename stack env s1 arn
    tags_to_add tags_to_remove :
  create_environment self name ename stack None s = Ok env s1 ->
  identifier_is s1 env arn ->
  _find_environment_by_arn self arn s1 = Ok env s1 ->
  tags_to_add <> [] ->
  update_tags_for_resource self arn tags_to_add tags_to_remove s1 = Raise TypeError s1 /\
  (forall args, TypeError <> InvalidParameterValueError args) /\
  (forall args, TypeError <> ResourceNotFoundException args).
Proof.
  intros Hc _ Hf Hne. split; [|split; discriminate].
  rewrite create_environment_eval in Hc.
  destruct (backends s !! self) as [b|]; [|discriminate].
  destruct (dicts s !! applications b) as [d|]; [|discriminate].
  destruct (dict_get name d) as [app|]; [|discriminate].
  rewrite Application_create_environment_eval in Hc.
  destruct (apps s !! app) as [a|]; [|discriminate].
  destruct (dict_contains ename (environments a)); [discriminate|].
  injection Hc as <- <-.
  apply (update_tags_None _ self arn (length (envs s)) (mkEnvironment app ename stack None));
    [exact Hf | now apply list_lookup_middle | reflexivity | now left].
Qed.
(** ** Further properties of the registry *)

(** X1. The operations that only read ([describe_applications],
    [describe_environments], [list_tags_for_resource],
    [_find_environment_by_arn] and the properties of applications and
    environments) leave every store exactly as it was, whether they return
    or raise. *)
Theorem reads_leave_store s self arn a e :
  store_of (describe_applications self s) = s /\
  store_of (describe_environments self s) = s /\
  store_of (list_tags_for_resource self arn s) = s /\
  store_of (_find_environment_by_arn self arn s) = s /\
  store_of (Application_region a s) = s /\
  store_of (Application_arn a s) = s /\
  store_of (Environment_application_name e s) = s /\
  store_of (Environment_region e s) = s /\
  store_of (Environment_environment_arn e s) = s.
Proof.
  repeat split.
  - apply pure_describe_applications.
  - apply pure_describe_environments.
  - apply pure_list_tags_for_resource.
  - apply pure_find_environment_by_arn.
  - apply pure_Application_region.
  - apply pure_Application_arn.
  - apply pure_Environment_application_name.
  - apply pure_Environment_region.
  - apply pure_Environment_environment_arn.
Qed.

Lemma In_dict_get_inv {V} (k : string) (v : V) (d : dict V) :
  dict_get k d = Some v -> In (k, v) d.
Proof.
  induction d as [|[k0 v0] d IH]; simpl; [discriminate|].
  destruct (String.eqb_spec k0 k) as [->|Hne].
  - intros [= ->]. now left.
  - intros H. right. now apply IH.
Qed.

Lemma dict_get_set_ne {V} (k k' : string) (v : V) (d : dict V) :
  k' <> k -> dict_get k' (dict_set k v d) = dict_get k' d.
Proof.
  intros Hne. induction d as [|[k0 v0] d IH]; simpl.
  - destruct (String.eqb_spec k k'); [congruence | reflexivity].
  - destruct (String.eqb_spec k0 k) as [->|Hk]; simpl.
    + destruct (String.eqb_spec k k'); [congruence | reflexivity].
    + destruct (String.eqb k0 k'); [reflexivity | exact IH].
Qed.

Lemma dict_values_set_fresh {V} (k : string) (v : V) (d : dict V) :
  dict_get k d = None -> dict_values (dict_set k v d) = dict_values d ++ [v].
Proof.
  intros H. rewrite dict_set_fresh by exact H.
  unfold dict_values. now rewrite map_app.
Qed.

Lemma describe_applications_eval s self b d :
  backends s !! self = Some b -> dicts s !! applications b = Some d ->
  describe_applications self s = Ok (dict_values d) s.
Proof. intros Hb Hd. unfold describe_applications. mrun. reflexivity. Qed.

(** X2. For a backend of the store and a name that is not registered:
    [create_application] returns a new application object with that name,
    this backend and no environments; afterwards the name leads to it, every
    other name leads where it led before, and [describe_applications] lists
    the applications it listed before followed by the new one. *)
Theorem create_application_registers s self b d name :
  backends s !! self = Some b -> dicts s !! applications b = Some d ->
  dict_get name d = None ->
  exists s1,
    create_application self name s = Ok (length (apps s)) s1 /\
    apps s !! length (apps s) = None /\
    apps s1 !! length (apps s) = Some (mkApplication self name []) /\
    applications_getitem self name s1 = Ok (length (apps s)) s1 /\
    (forall k, k <> name ->
       applications_getitem self k s1 = with_store (applications_getitem self k s) s1) /\
    describe_applications self s = Ok (dict_values d) s /\
    describe_applications self s1 = Ok (dict_values d ++ [length (apps s)]) s1.
Proof.
  intros Hb Hd Hg.
  rewrite create_application_eval, Hb, Hd, dict_contains_get, Hg.
  eexists. split; [reflexivity|].
  assert (Hd' : <[applications b := dict_set name (length (apps s)) d]> (dicts s)
                  !! applications b = Some (dict_set name (length (apps s)) d)).
  { apply list_lookup_insert_eq. exact (lookup_lt_Some _ _ _ Hd). }
  split; [now apply lookup_ge_None_2|].
  split; [now apply list_lookup_middle|].
  split; [|split; [|split]].
  - erewrite applications_getitem_eval; [|exact Hb|exact Hd'].
    now rewrite dict_get_set.
  - intros k Hk.
    erewrite applications_getitem_eval; [|exact Hb|exact Hd'].
    rewrite (applications_getitem_eval s self b d k Hb Hd).
    rewrite dict_get_set_ne by exact Hk. now destruct (dict_get k d).
  - exact (describe_applications_eval s self b d Hb Hd).
  - erewrite describe_applications_eval; [|exact Hb|exact Hd'].
    now rewrite dict_values_set_fresh.
Qed.

(** X3. In a reachable store, for a name registered with a backend,
    [create_environment] has exactly two outcomes.  When the application
    already has an environment under the name, it raises [TypeError] (the
    exception class is called without its message) and the store stays as
    it was.  Otherwise it returns a new environment object and stores it
    under the name; no other exception is possible. *)
Theorem create_environment_registered s self b d name app ename stack tgs :
  reachable s ->
  backends s !! self = Some b -> dicts s !! applications b = Some d ->
  dict_get name d = Some app ->
  exists a,
    apps s !! app = Some a /\ application_name a = name /\
    ((dict_get ename (environments a) <> None /\
      create_environment self name ename stack tgs s = Raise TypeError s) \/
     (dict_get ename (environments a) = None /\
      exists s1,
        create_environment self name ename stack tgs s = Ok (length (envs s)) s1 /\
        envs s !! length (envs s) = None /\
        envs s1 !! length (envs s) = Some (mkEnvironment app ename stack tgs) /\
        exists a1,
          apps s1 !! app = Some a1 /\
          dict_get ename (environments a1) = Some (length (envs s)) /\
          forall k, k <> ename -> dict_get k (environments a1) = dict_get k (environments a))).
Proof.
  intros R Hb Hd Hg. apply reachable_wf in R.
  pose proof (In_dict_get_inv name app d Hg) as Hin.
  destruct (wf_apps s R self b d name app Hb Hd Hin) as (a & Ha & Hn & _).
  exists a. split; [exact Ha|]. split; [exact Hn|].
  rewrite create_environment_eval, Hb, Hd, Hg.
  rewrite Application_create_environment_eval, Ha, dict_contains_get.
  destruct (dict_get ename (environments a)) as [e0|] eqn:He.
  - left. split; [discriminate | reflexivity].
  - right. split; [reflexivity|]. eexists. split; [reflexivity|]. simpl.
    split; [now apply lookup_ge_None_2|].
    split; [now apply list_lookup_middle|].
    eexists. split; [apply list_lookup_insert_eq; exact (lookup_lt_Some _ _ _ Ha)|].
    simpl. split; [apply dict_get_set|].
    intros k Hk. now apply dict_get_set_ne.
Qed.
Lemma Environment_application_name_eval s e env app :
  envs s !! e = Some env -> apps s !! application env = Some app ->
  Environment_application_name e s = Ok (application_name app) s.
Proof. intros He Ha. unfold Environment_application_name. mrun. reflexivity. Qed.

Lemma Environment_region_eval s e env app b :
  envs s !! e = Some env -> apps s !! application env = Some app ->
  backends s !! backend app = Some b ->
  Environment_region e s = Ok (region b) s.
Proof.
  intros He Ha Hb. unfold Environment_region, Application_region. mrun. reflexivity.
Qed.

Lemma create_environment_Ok_inv s self name ename stack tgs env s1 :
  create_environment self name ename stack tgs s = Ok env s1 ->
  exists b d app a,
    backends s !! self = Some b /\ dicts s !! applications b = Some d /\
    dict_get name d = Some app /\ apps s !! app = Some a /\
    dict_get ename (environments a) = None /\
    env = length (envs s) /\
    s1 = mkStore (backends s) (dicts s)
           (<[app := mkApplication (backend a) (application_name a)
                       (dict_set ename (length (envs s)) (environments a))]> (apps s))
           (envs s ++ [mkEnvironment app ename stack tgs]).
Proof.
  rewrite create_environment_eval.
  destruct (backends s !! self) as [b|] eqn:Hb; [|discriminate].
  destruct (dicts s !! applications b) as [d|] eqn:Hd; [|discriminate].
  destruct (dict_get name d) as [app|] eqn:Hg; [|discriminate].
  rewrite Application_create_environment_eval.
  destruct (apps s !! app) as [a|] eqn:Ha; [|discriminate].
  rewrite dict_contains_get.
  destruct (dict_get ename (environments a)) eqn:He; [discriminate|].
  intros [= <- <-]. exists b, d, app, a. now repeat split.
Qed.

Lemma In_dict_values_intro {V} (k : string) (v : V) (d : dict V) :
  In (k, v) d -> In v (dict_values d).
Proof. intros H. unfold dict_values. change v with (snd (k, v)). now apply in_map. Qed.

(** What a successful [create_environment] leaves behind. *)
Lemma created_environment_facts s self b name ename stack tgs env s1 :
  wf s -> backends s !! self = Some b ->
  create_environment self name ename stack tgs s = Ok env s1 ->
  wf s1 /\ backends s1 !! self = Some b /\
  exists d app a1,
    dicts s !! applications b = Some d /\ dicts s1 !! applications b = Some d /\
    In (name, app) d /\ apps s1 !! app = Some a1 /\
    application_name a1 = name /\ backend a1 = self /\
    In (ename, env) (environments a1) /\
    envs s1 !! env = Some (mkEnvironment app ename stack tgs).
Proof.
  intros R Hb Hc.
  assert (W1 : wf s1).
  { replace s1 with (store_of (create_environment self name ename stack tgs s))
      by now rewrite Hc.
    now apply wf_create_environment. }
  split; [exact W1|].
  apply create_environment_Ok_inv in Hc
    as (b' & d & app & a & Hb' & Hd & Hg & Ha & He & -> & ->).
  rewrite Hb in Hb'. injection Hb' as <-.
  split; [exact Hb|].
  pose proof (In_dict_get_inv name app d Hg) as Hin.
  destruct (wf_apps s R self b d name app Hb Hd Hin) as (a' & Ha' & Hn & Hbk).
  rewrite Ha in Ha'. injection Ha' as <-.
  exists d, app, (mkApplication (backend a) (application_name a)
                    (dict_set ename (length (envs s)) (environments a))).
  split; [exact Hd|]. split; [exact Hd|]. split; [exact Hin|].
  split; [apply list_lookup_insert_eq; exact (lookup_lt_Some _ _ _ Ha)|].
  split; [exact Hn|]. split; [exact Hbk|].
  split; [apply In_dict_get_inv; simpl; apply dict_get_set|].
  now apply list_lookup_middle.
Qed.

(** X4. In a reachable store, an environment that [create_environment] has
    just returned reports the name of the application it was created under
    as its [application_name], the region of the backend as its [region],
    and the ARN built from the region, the application name and its own
    name as its [environment_arn]; [describe_environments] lists it. *)
Theorem created_environment_properties s self b name ename stack tgs env s1 :
  reachable s -> backends s !! self = Some b ->
  create_environment self name ename stack tgs s = Ok env s1 ->
  Environment_application_name env s1 = Ok name s1 /\
  Environment_region env s1 = Ok (region b) s1 /\
  Environment_environment_arn env s1 = Ok (environment_identifier (region b) name ename) s1 /\
  exists all, describe_environments self s1 = Ok all s1 /\ In env all.
Proof.
  intros R Hb Hc. apply reachable_wf in R.
  destruct (created_environment_facts s self b name ename stack tgs env s1 R Hb Hc)
    as (W1 & Hb1 & d & app & a1 & _ & Hd1 & Hin & Ha1 & Hn & Hbk & Hine & He1).
  assert (Hbb : backends s1 !! backend a1 = Some b) by now rewrite Hbk.
  split; [|split; [|split]].
  - rewrite <- Hn.
    exact (Environment_application_name_eval s1 env _ a1 He1 Ha1).
  - exact (Environment_region_eval s1 env _ a1 b He1 Ha1 Hbb).
  - exact (wf_environment_arn s1 self b d name app a1 ename env W1 Hb1 Hd1 Hin Ha1 Hine).
  - exists (all_environments s1 d).
    split; [exact (describe_environments_eval s1 self b d W1 Hb1 Hd1)|].
    unfold all_environments. apply in_flat_map. exists app.
    split; [exact (In_dict_values_intro _ _ _ Hin)|].
    unfold environments_of. rewrite Ha1.
    exact (In_dict_values_intro _ _ _ Hine).
Qed.

Lemma flat_map_agree {A B} (f g : A -> list B) (l : list A) :
  (forall x, In x l -> f x = g x) -> flat_map f l = flat_map g l.
Proof.
  induction l as [|x l IH]; intros H; simpl; [reflexivity|].
  rewrite (H x (or_introl eq_refl)), IH; [reflexivity|].
  intros y Hy. apply H. now right.
Qed.

(** X5. In a reachable store, let the [applications] dict of a backend hold
    the entries [pre], then the application [app] under [name], then the
    entries [post].  After [create_environment] under [name] has returned a
    new environment, [describe_environments] lists the environments of the
    applications of [pre], then those that [app] already had, then the new
    one, then the environments of the applications of [post]; apart from
    the new environment the listing is the one from before the call. *)
Theorem describe_environments_after_create s self b pre app post name ename stack tgs
    env s1 :
  reachable s -> backends s !! self = Some b ->
  dicts s !! applications b = Some (pre ++ (name, app) :: post) ->
  create_environment self name ename stack tgs s = Ok env s1 ->
  describe_applications self s1 = Ok (dict_values pre ++ app :: dict_values post) s1 /\
  describe_environments self s =
    Ok (all_environments s pre ++ environments_of s app ++ all_environments s post) s /\
  describe_environments self s1 =
    Ok (all_environments s pre ++ environments_of s app ++ env :: all_environments s post)
      s1.
Proof.
  intros R Hb Hd Hc.
  assert (W1 : wf s1).
  { replace s1 with (store_of (create_environment self name ename stack tgs s))
      by now rewrite Hc.
    apply wf_create_environment. now apply reachable_wf. }
  apply reachable_wf in R.
  apply create_environment_Ok_inv in Hc
    as (b' & d & app0 & a & Hb' & Hd' & Hg & Ha & He & -> & ->).
  rewrite Hb in Hb'. injection Hb' as <-.
  pose proof (eq_trans (eq_sym Hd') Hd) as Ed. injection Ed as ->. clear Hd'.
  pose proof (wf_keys s R self b _ Hb Hd) as Hnd.
  assert (Hmid : In (name, app) (pre ++ (name, app) :: post)).
  { apply in_or_app. right. now left. }
  rewrite (In_dict_get name app _ Hnd Hmid) in Hg. injection Hg as <-.
  set (a1 := mkApplication (backend a) (application_name a)
               (dict_set ename (length (envs s)) (environments a))) in *.
  set (s1 := mkStore (backends s) (dicts s) (<[app := a1]> (apps s))
               (envs s ++ [mkEnvironment app ename stack tgs])) in *.
  assert (Hother : forall k x, In (k, x) (pre ++ post) -> x <> app).
  { intros k x Hkx ->.
    assert (Hind : In (k, app) (pre ++ (name, app) :: post)).
    { apply in_app_or in Hkx as [H|H]; apply in_or_app; [now left | right; now right]. }
    destruct (wf_apps s R self b _ k app Hb Hd Hind) as (a' & Ha' & Hn' & _).
    destruct (wf_apps s R self b _ name app Hb Hd Hmid) as (a'' & Ha'' & Hn'' & _).
    assert (k = name) as -> by congruence.
    unfold dict_keys in Hnd. rewrite map_app in Hnd. simpl in Hnd.
    apply NoDup_app in Hnd as (_ & Hdisj & Hnd2).
    apply NoDup_cons in Hnd2 as [Hnotin _].
    apply in_app_or in Hkx as [H|H].
    - apply (Hdisj name).
      + apply list_elem_of_In. change name with (fst (name, app)). now apply in_map.
      + apply list_elem_of_In. now left.
    - apply Hnotin. apply list_elem_of_In.
      change name with (fst (name, app)). now apply in_map. }
  assert (Hsame : forall l, (forall k x, In (k, x) l -> x <> app) ->
            all_environments s1 l = all_environments s l).
  { intros l Hl. unfold all_environments. apply flat_map_agree. intros x Hx.
    apply In_dict_values in Hx as (k & Hk).
    unfold environments_of. simpl.
    now rewrite list_lookup_insert_ne by (apply not_eq_sym; exact (Hl k x Hk)). }
  assert (Happ1 : environments_of s1 app = environments_of s app ++ [length (envs s)]).
  { unfold environments_of. simpl.
    rewrite list_lookup_insert_eq by exact (lookup_lt_Some _ _ _ Ha).
    rewrite Ha. simpl. now apply dict_values_set_fresh. }
  assert (Hsplit : forall t, all_environments t (pre ++ (name, app) :: post) =
            all_environments t pre ++ environments_of t app ++ all_environments t post).
  { intros t. unfold all_environments, dict_values.
    now rewrite map_app, flat_map_app. }
  split; [|split].
  - rewrite (describe_applications_eval s1 self b _ Hb Hd).
    unfold dict_values. now rewrite map_app.
  - now rewrite (describe_environments_eval s self b _ R Hb Hd), Hsplit.
  - rewrite (describe_environments_eval s1 self b _ W1 Hb Hd), Hsplit.
    rewrite Happ1, (Hsame pre), (Hsame post).
    + now rewrite <- !app_assoc.
    + intros k x H. apply (Hother k x), in_or_app. now right.
    + intros k x H. apply (Hother k x), in_or_app. now left.
Qed.

(** The identifier of an environment under a backend resolves. *)
Lemma identifier_resolves s self b d env arn :
  wf s -> backends s !! self = Some b -> dicts s !! applications b = Some d ->
  In env (all_environments s d) -> identifier_is s env arn ->
  exists res e,
    _find_environment_by_arn self arn s = Ok res s /\
    In res (all_environments s d) /\ identifier_is s res arn /\
    envs s !! res = Some e /\
    list_tags_for_resource self arn s = Ok (arn, tags e) s.
Proof.
  intros R Hb Hd Hin Hid.
  pose proof (find_environment_by_arn_eval s self b d arn R Hb Hd) as Hfind.
  assert (Hids : forall e, In e (all_environments s d) -> exists a, identifier_is s e a).
  { intros e. exact (all_environments_identifier s self b d e R Hb Hd). }
  destruct (find (arn_matches s arn) (all_environments s d)) as [res|] eqn:Hres.
  - apply (find_matches_Some s _ arn res Hids) in Hres as (before & after & Hsplit & Hidres & _).
    pose proof Hidres as Hget.
    unfold identifier_is, Environment_environment_arn, bind at 1,
      Environment_application_name, bind at 1, get_env, deref in Hget.
    destruct (envs s !! res) as [e|] eqn:He; [|discriminate]. clear Hget.
    exists res, e. split; [exact Hfind|].
    split; [rewrite Hsplit; apply in_or_app; right; now left|].
    split; [exact Hidres|]. split; [exact He|].
    unfold list_tags_for_resource, bind at 1, except_KeyError. rewrite Hfind.
    unfold bind, get_env, deref. now rewrite He.
  - exfalso. apply (find_matches_None s _ arn Hids) in Hres.
    destruct (Hres env Hin) as (a' & Ha' & Hne).
    unfold identifier_is in *. congruence.
Qed.

(** X6. In a reachable store, the identifier of every environment that
    [describe_environments] lists resolves: [_find_environment_by_arn]
    returns an environment with that identifier and
    [list_tags_for_resource] answers with the identifier and the tags of
    that environment, so it does not raise. *)
Theorem listed_identifier_resolves s self b all env arn :
  reachable s -> backends s !! self = Some b ->
  describe_environments self s = Ok all s -> In env all ->
  identifier_is s env arn ->
  exists res e,
    _find_environment_by_arn self arn s = Ok res s /\
    In res all /\ identifier_is s res arn /\
    envs s !! res = Some e /\
    list_tags_for_resource self arn s = Ok (arn, tags e) s.
Proof.
  intros R Hb Hall Hin Hid. apply reachable_wf in R.
  destruct (dicts s !! applications b) as [d|] eqn:Hd.
  2:{ apply lookup_ge_None_1 in Hd. pose proof (wf_dict s R self b Hb). lia. }
  rewrite (describe_environments_eval s self b d R Hb Hd) in Hall.
  injection Hall as <-.
  exact (identifier_resolves s self b d env arn R Hb Hd Hin Hid).
Qed.
(** *** Computations that do not look at tags *)

Lemma with_store_pure {A} (c : M A) s : pure c -> with_store (c s) s = c s.
Proof.
  intros Hc. specialize (Hc s). destruct (c s) as [a s0|e s0]; simpl in *; now subst.
Qed.

Lemma tag_blind_ret {A} (a : A) : tag_blind (ret a).
Proof. now intros s s' _. Qed.

Lemma tag_blind_raise {A} (e : exn) : tag_blind (@raise A e).
Proof. now intros s s' _. Qed.

Lemma tag_blind_bind {A B} (c : M A) (k : A -> M B) :
  pure c -> tag_blind c -> (forall a, tag_blind (k a)) -> tag_blind (bind c k).
Proof.
  intros Hp Hc Hk s s' HS. unfold bind. rewrite (Hc s s' HS).
  specialize (Hp s). destruct (c s) as [a s0|e s0]; simpl in *; subst s0;
    [now apply Hk | reflexivity].
Qed.

Lemma tag_blind_except {A} (c h : M A) :
  pure c -> tag_blind c -> tag_blind h -> tag_blind (except_KeyError c h).
Proof.
  intros Hp Hc Hh s s' HS. unfold except_KeyError. rewrite (Hc s s' HS).
  specialize (Hp s). destruct (c s) as [a s0|e s0]; simpl in *; subst s0;
    [reflexivity|].
  destruct e; try reflexivity. now apply Hh.
Qed.

Lemma tag_blind_get_backend a : tag_blind (get_backend a).
Proof.
  intros s s' (B & _). unfold get_backend. rewrite B.
  now destruct (backends s !! a).
Qed.

Lemma tag_blind_get_dict a : tag_blind (get_dict a).
Proof.
  intros s s' (_ & D & _). unfold get_dict. rewrite D.
  now destruct (dicts s !! a).
Qed.

Lemma tag_blind_get_app a : tag_blind (get_app a).
Proof.
  intros s s' (_ & _ & A & _). unfold get_app. rewrite A.
  now destruct (apps s !! a).
Qed.

Lemma same_but_tags_envs s s' e :
  same_but_tags s s' ->
  match envs s !! e, envs s' !! e with
  | Some env, Some env' =>
      application env' = application env /\ environment_name env' = environment_name env
  | None, None => True
  | _, _ => False
  end.
Proof.
  intros HS.
  destruct (envs s' !! e) as [env'|] eqn:He'.
  - destruct (same_but_tags_lookup s s' e env' HS He') as (env & -> & Hn & Ha).
    now split.
  - destruct (envs s !! e) as [env|] eqn:He; [|exact I].
    destruct (same_but_tags_lookup s' s e env (same_but_tags_sym _ _ HS) He)
      as (env' & Habs & _). congruence.
Qed.

Lemma tag_blind_Application_region a : tag_blind (Application_region a).
Proof.
  unfold Application_region.
  apply tag_blind_bind; [apply pure_get_app | apply tag_blind_get_app|]. intros app.
  apply tag_blind_bind; [apply pure_get_backend | apply tag_blind_get_backend|].
  intros b. apply tag_blind_ret.
Qed.

Lemma tag_blind_Environment_environment_arn e :
  tag_blind (Environment_environment_arn e).
Proof.
  intros s s' HS. pose proof (same_but_tags_envs s s' e HS) as He.
  pose proof HS as (B & _ & A & _).
  unfold Environment_environment_arn, Environment_application_name,
    Environment_region, Application_region.
  munfold.
  destruct (envs s !! e) as [env|] eqn:E1, (envs s' !! e) as [env'|] eqn:E2;
    try easy.
  destruct He as [Ha Hn].
  repeat (cbn -[String.append]; rewrite ?E1, ?E2, ?A, ?B, ?Ha, ?Hn).
  destruct (apps s !! application env) as [app|] eqn:E3;
    repeat (cbn -[String.append]; rewrite ?E1, ?E2, ?A, ?B, ?Ha, ?Hn, ?E3);
    [|reflexivity].
  destruct (backends s !! backend app) as [b|] eqn:E4;
    repeat (cbn -[String.append]; rewrite ?E1, ?E2, ?A, ?B, ?Ha, ?Hn, ?E3, ?E4);
    reflexivity.
Qed.

Lemma tag_blind_applications_getitem self k : tag_blind (applications_getitem self k).
Proof.
  unfold applications_getitem.
  apply tag_blind_bind; [apply pure_get_backend | apply tag_blind_get_backend|]. intros b.
  apply tag_blind_bind; [apply pure_get_dict | apply tag_blind_get_dict|]. intros d.
  destruct (dict_get k d); [apply tag_blind_ret | apply tag_blind_raise].
Qed.

Lemma tag_blind_find_in_environments l arn : tag_blind (find_in_environments l arn).
Proof.
  induction l as [|e l IH]; simpl; [apply tag_blind_ret|].
  apply tag_blind_bind;
    [apply pure_Environment_environment_arn | apply tag_blind_Environment_environment_arn|].
  intros a. destruct (String.eqb a arn); [apply tag_blind_ret | exact IH].
Qed.

Lemma tag_blind_find_in_applications self keys arn :
  tag_blind (find_in_applications self keys arn).
Proof.
  induction keys as [|k keys IH]; simpl; [apply tag_blind_ret|].
  apply tag_blind_bind;
    [apply pure_applications_getitem | apply tag_blind_applications_getitem|]. intros a.
  apply tag_blind_bind; [apply pure_get_app | apply tag_blind_get_app|]. intros app.
  apply tag_blind_bind;
    [apply pure_find_in_environments | apply tag_blind_find_in_environments|].
  intros [env|]; [apply tag_blind_ret | exact IH].
Qed.

Lemma tag_blind_find_environment_by_arn self arn :
  tag_blind (_find_environment_by_arn self arn).
Proof.
  unfold _find_environment_by_arn.
  apply tag_blind_bind; [apply pure_get_backend | apply tag_blind_get_backend|]. intros b.
  apply tag_blind_bind; [apply pure_get_dict | apply tag_blind_get_dict|]. intros d.
  apply tag_blind_bind;
    [apply pure_find_in_applications | apply tag_blind_find_in_applications|].
  intros [env|]; [apply tag_blind_ret | apply tag_blind_raise].
Qed.

(** X7. For an environment that the identifier resolves to and whose tags
    are a list: after [update_tags_for_resource] has returned,
    [list_tags_for_resource] on the same identifier answers with the tags
    that result from the additions followed by the removals, and every
    identifier resolves to the environment it resolved to before. *)
Theorem update_then_list_tags s self arn res e l adds removes :
  _find_environment_by_arn self arn s = Ok res s ->
  envs s !! res = Some e -> tags e = Some l ->
  exists s',
    update_tags_for_resource self arn adds removes s = Ok tt s' /\
    list_tags_for_resource self arn s' =
      Ok (arn, Some (spec_remove_all removes (spec_upsert_all adds l))) s' /\
    forall arn', _find_environment_by_arn self arn' s' =
                 with_store (_find_environment_by_arn self arn' s) s'.
Proof.
  intros Hf He Hl.
  exists (store_with_tags s res (spec_remove_all removes (spec_upsert_all adds l))).
  split; [exact (update_tags_eval s self arn res e l adds removes Hf He Hl)|].
  assert (HS : same_but_tags s
                 (store_with_tags s res (spec_remove_all removes (spec_upsert_all adds l)))).
  { unfold store_with_tags. rewrite He. now apply same_but_tags_set. }
  assert (Hfind : forall arn', _find_environment_by_arn self arn'
                    (store_with_tags s res (spec_remove_all removes (spec_upsert_all adds l))) =
                  with_store (_find_environment_by_arn self arn' s)
                    (store_with_tags s res (spec_remove_all removes (spec_upsert_all adds l)))).
  { intros arn'. now apply tag_blind_find_environment_by_arn. }
  split; [|exact Hfind].
  unfold list_tags_for_resource, bind at 1, except_KeyError.
  rewrite Hfind, Hf. simpl.
  unfold bind, get_env, deref.
  now rewrite (store_with_tags_lookup s res e _ He).
Qed.

(** X8. With nothing to add and nothing to remove,
    [update_tags_for_resource] on an identifier that resolves returns
    without touching the store, whatever the tags of the environment are;
    on an environment without a tag list, a key to remove is enough to
    raise [TypeError]. *)
Theorem update_tags_nothing_to_do s self arn res :
  _find_environment_by_arn self arn s = Ok res s ->
  update_tags_for_resource self arn [] [] s = Ok tt s /\
  forall e key removes,
    envs s !! res = Some e -> tags e = None ->
    update_tags_for_resource self arn [] (key :: removes) s = Raise TypeError s.
Proof.
  intros Hf. split.
  - unfold update_tags_for_resource, bind at 1, except_KeyError. now rewrite Hf.
  - intros e key removes He Hl.
    apply (update_tags_None s self arn res e); [exact Hf | exact He | exact Hl|].
    now right.
Qed.

(** X9. In a reachable store, [update_tags_for_resource] on a backend has
    three outcomes only: it returns, and then the stores differ in tags at
    most; or it raises [ResourceNotFoundException] with the message for the
    identifier; or it raises [TypeError].  In both failures the store is
    exactly the one before the call: nothing is half done, and neither
    [KeyError] nor [ValueError] nor [ReferenceError] gets out. *)
Theorem update_tags_outcomes s self b arn adds removes :
  reachable s -> backends s !! self = Some b ->
  (exists s', update_tags_for_resource self arn adds removes s = Ok tt s' /\
              same_but_tags s s') \/
  update_tags_for_resource self arn adds removes s = Raise (not_found_for_arn arn) s \/
  update_tags_for_resource self arn adds removes s = Raise TypeError s.
Proof.
  intros R Hb. apply reachable_wf in R.
  destruct (dicts s !! applications b) as [d|] eqn:Hd.
  2:{ apply lookup_ge_None_1 in Hd. pose proof (wf_dict s R self b Hb). lia. }
  pose proof (find_environment_by_arn_eval s self b d arn R Hb Hd) as Hfind.
  assert (Hids : forall e, In e (all_environments s d) -> exists a, identifier_is s e a).
  { intros e. exact (all_environments_identifier s self b d e R Hb Hd). }
  destruct (find (arn_matches s arn) (all_environments s d)) as [res|] eqn:Hres.
  - apply (find_matches_Some s _ arn res Hids) in Hres as (_ & _ & _ & Hidres & _).
    unfold identifier_is, Environment_environment_arn, bind at 1,
      Environment_application_name, bind at 1, get_env, deref in Hidres.
    destruct (envs s !! res) as [e|] eqn:He; [|discriminate]. clear Hidres.
    destruct (tags e) as [l|] eqn:Hl.
    + left. eexists. split; [exact (update_tags_eval s self arn res e l adds removes Hfind He Hl)|].
      unfold store_with_tags. rewrite He. now apply same_but_tags_set.
    + destruct adds as [|tag adds]; [destruct removes as [|key removes]|].
      * left. exists s. split; [|apply same_but_tags_refl].
        unfold update_tags_for_resource, bind at 1, except_KeyError. now rewrite Hfind.
      * right. right. apply (update_tags_None s self arn res e); auto.
      * right. right. apply (update_tags_None s self arn res e); auto.
  - right. left.
    unfold update_tags_for_resource, bind at 1, except_KeyError. now rewrite Hfind.
Qed.
(** *** What the two loops do to the keys *)

Lemma spec_remove_upsert tag l :
  spec_remove (tag_key tag) (spec_upsert tag l) = spec_remove (tag_key tag) l.
Proof.
  induction l as [|t l IH]; simpl.
  - now rewrite String.eqb_refl.
  - destruct (String.eqb (tag_key t) (tag_key tag)) eqn:Hk; simpl; rewrite Hk;
      [reflexivity | now rewrite IH].
Qed.

(** X10. For an environment that the identifier resolves to and whose tags
    are a list: a call that adds a tag and removes the key of that tag gives
    the same store as a call that only removes the key.  The additions are
    done first, so the tag that was just written or appended is the one
    that the removal takes out. *)
Theorem update_tags_add_then_remove s self arn res e l tag :
  _find_environment_by_arn self arn s = Ok res s ->
  envs s !! res = Some e -> tags e = Some l ->
  update_tags_for_resource self arn [tag] [tag_key tag] s =
  update_tags_for_resource self arn [] [tag_key tag] s.
Proof.
  intros Hf He Hl.
  rewrite (update_tags_eval s self arn res e l [tag] [tag_key tag] Hf He Hl).
  rewrite (update_tags_eval s self arn res e l [] [tag_key tag] Hf He Hl).
  simpl. now rewrite spec_remove_upsert.
Qed.

Lemma spec_upsert_In_keys tag l k :
  In k (map tag_key (spec_upsert tag l)) <-> In k (map tag_key l) \/ k = tag_key tag.
Proof.
  rewrite spec_upsert_keys.
  destruct (existsb (has_key (tag_key tag)) l) eqn:Hex.
  - split; [now left|]. intros [H| ->]; [exact H|].
    apply existsb_exists in Hex as (u & Hu & Hk). unfold has_key in Hk.
    apply String.eqb_eq in Hk. rewrite <- Hk. now apply in_map.
  - rewrite in_app_iff. simpl. split.
    + intros [H|[<-|[]]]; [now left | now right].
    + intros [H| ->]; [now left | right; now left].
Qed.

Lemma spec_upsert_all_In_keys adds l k :
  In k (map tag_key (spec_upsert_all adds l)) <->
  In k (map tag_key l) \/ In k (map tag_key adds).
Proof.
  revert l. induction adds as [|tag adds IH]; intros l; simpl; [tauto|].
  unfold spec_upsert_all in IH. rewrite IH, spec_upsert_In_keys. intuition auto.
Qed.

Lemma spec_remove_keys key l :
  NoDup (map tag_key l) ->
  NoDup (map tag_key (spec_remove key l)) /\
  forall k, In k (map tag_key (spec_remove key l)) <-> In k (map tag_key l) /\ k <> key.
Proof.
  induction l as [|t l IH]; simpl; intros Hnd.
  - split; [exact Hnd | tauto].
  - apply NoDup_cons in Hnd as [Hnotin Hnd].
    destruct (String.eqb_spec (tag_key t) key) as [Hk|Hk].
    + split; [exact Hnd|]. intros k. split.
      * intros H. split; [now right|]. intros ->. subst key.
        apply Hnotin. now apply list_elem_of_In.
      * intros [[H|H] Hne]; [congruence | exact H].
    + destruct (IH Hnd) as [IH1 IH2]. simpl. split.
      * apply NoDup_cons. split; [|exact IH1].
        intros H. apply list_elem_of_In, IH2 in H as [H _].
        apply Hnotin. now apply list_elem_of_In.
      * intros k. rewrite IH2. split.
        -- intros [<-|[H Hne]]; [split; [now left | exact Hk] | split; [now right | exact Hne]].
        -- intros [[H|H] Hne]; [now left | right; now split].
Qed.

Lemma spec_remove_all_keys removes l :
  NoDup (map tag_key l) ->
  NoDup (map tag_key (spec_remove_all removes l)) /\
  forall k, In k (map tag_key (spec_remove_all removes l)) <->
            In k (map tag_key l) /\ ~ In k removes.
Proof.
  revert l. induction removes as [|key removes IH]; intros l Hnd; simpl.
  - split; [exact Hnd | tauto].
  - destruct (spec_remove_keys key l Hnd) as [H1 H2].
    destruct (IH (spec_remove key l) H1) as [H3 H4].
    split; [exact H3|]. intros k. unfold spec_remove_all in H4.
    rewrite H4, H2. intuition auto.
Qed.

(** X11. For an environment that the identifier resolves to and whose tags
    are a list with distinct keys: after [update_tags_for_resource] the tags
    still have distinct keys, and a key is among them exactly when it was
    there before or is the key of a tag to add, and is not a key to
    remove. *)
Theorem update_tags_keys s self arn res e l adds removes :
  _find_environment_by_arn self arn s = Ok res s ->
  envs s !! res = Some e -> tags e = Some l ->
  NoDup (map tag_key l) ->
  exists l',
    update_tags_for_resource self arn adds removes s = Ok tt (store_with_tags s res l') /\
    envs (store_with_tags s res l') !! res = Some (with_tags e (Some l')) /\
    NoDup (map tag_key l') /\
    forall k, In k (map tag_key l') <->
              (In k (map tag_key l) \/ In k (map tag_key adds)) /\ ~ In k removes.
Proof.
  intros Hf He Hl Hnd.
  exists (spec_remove_all removes (spec_upsert_all adds l)).
  split; [exact (update_tags_eval s self arn res e l adds removes Hf He Hl)|].
  split; [exact (store_with_tags_lookup s res e _ He)|].
  destruct (spec_remove_all_keys removes (spec_upsert_all adds l)
              (spec_upsert_all_NoDup adds l Hnd)) as [H1 H2].
  split; [exact H1|]. intros k. now rewrite H2, spec_upsert_all_In_keys.
Qed.
(** *** Names are unique *)

Lemma env_keys_empty : env_keys_distinct empty_store.
Proof. intros a app H. discriminate. Qed.

Lemma env_keys_run_call s c : env_keys_distinct s -> env_keys_distinct (run_call c s).
Proof.
  intros K. destruct c as [r|self|self name|self name ename stack tgs|self arn adds removes|self arn];
    simpl.
  - exact K.
  - rewrite reset_eval. now destruct (backends s !! self).
  - rewrite create_application_eval.
    destruct (backends s !! self) as [b|]; [|exact K].
    destruct (dicts s !! applications b) as [d|]; [|exact K].
    destruct (dict_contains name d); [exact K|]. simpl.
    intros a app Ha. simpl in Ha.
    apply lookup_snoc_Some in Ha as [[_ Ha]|[_ <-]]; [exact (K a app Ha)|].
    apply NoDup_nil_2.
  - rewrite create_environment_eval.
    destruct (backends s !! self) as [b|]; [|exact K].
    destruct (dicts s !! applications b) as [d|]; [|exact K].
    destruct (dict_get name d) as [app|]; [|exact K].
    rewrite Application_create_environment_eval.
    destruct (apps s !! app) as [a0|] eqn:Ha0; [|exact K].
    rewrite dict_contains_get.
    destruct (dict_get ename (environments a0)) eqn:Hfree; [exact K|]. simpl.
    intros a x Ha. simpl in Ha.
    apply list_lookup_insert_Some in Ha as [(_ & <- & _)|[_ Ha]]; [|exact (K a x Ha)].
    simpl. rewrite dict_keys_set_fresh by exact Hfree.
    apply NoDup_app. split; [exact (K app a0 Ha0)|].
    split; [|apply NoDup_singleton].
    intros k Hk Hk'. apply list_elem_of_In in Hk.
    apply list_elem_of_singleton in Hk'. subst k.
    now apply dict_get_None_keys in Hfree.
  - pose proof (same_but_tags_update_tags s self arn adds removes) as (_ & _ & A & _).
    intros a app Ha. rewrite A in Ha. exact (K a app Ha).
  - now rewrite pure_list_tags_for_resource.
Qed.

Lemma reachable_env_keys s : reachable s -> env_keys_distinct s.
Proof.
  induction 1 as [|s c _ IH]; [exact env_keys_empty | now apply env_keys_run_call].
Qed.

Lemma NoDup_keys_functional {V} (d : dict V) k v v' :
  NoDup (dict_keys d) -> In (k, v) d -> In (k, v') d -> v = v'.
Proof.
  intros Hnd H1 H2.
  apply (In_dict_get k v d Hnd) in H1. apply (In_dict_get k v' d Hnd) in H2.
  congruence.
Qed.

(** X12. In a reachable store, two applications that a backend holds and
    that have the same [application_name] are one and the same object, and
    two environments of one such application that have the same
    [environment_name] are one and the same object. *)
Theorem names_are_unique s self b d :
  reachable s ->
  backends s !! self = Some b -> dicts s !! applications b = Some d ->
  (forall k1 a1 app1 k2 a2 app2,
     In (k1, a1) d -> apps s !! a1 = Some app1 ->
     In (k2, a2) d -> apps s !! a2 = Some app2 ->
     application_name app1 = application_name app2 -> a1 = a2) /\
  (forall k a app ke1 e1 env1 ke2 e2 env2,
     In (k, a) d -> apps s !! a = Some app ->
     In (ke1, e1) (environments app) -> envs s !! e1 = Some env1 ->
     In (ke2, e2) (environments app) -> envs s !! e2 = Some env2 ->
     environment_name env1 = environment_name env2 -> e1 = e2).
Proof.
  intros R Hb Hd. pose proof (reachable_env_keys s R) as K.
  apply reachable_wf in R. split.
  - intros k1 a1 app1 k2 a2 app2 H1 Ha1 H2 Ha2 Hn.
    destruct (wf_apps s R self b d k1 a1 Hb Hd H1) as (x1 & Hx1 & Hn1 & _).
    destruct (wf_apps s R self b d k2 a2 Hb Hd H2) as (x2 & Hx2 & Hn2 & _).
    assert (k1 = k2) as -> by congruence.
    exact (NoDup_keys_functional d k2 a1 a2 (wf_keys s R self b d Hb Hd) H1 H2).
  - intros k a app ke1 e1 env1 ke2 e2 env2 Hin Ha H1 He1 H2 He2 Hn.
    destruct (wf_envs s R a app ke1 e1 Ha H1) as (x1 & Hx1 & Hn1 & _).
    destruct (wf_envs s R a app ke2 e2 Ha H2) as (x2 & Hx2 & Hn2 & _).
    assert (ke1 = ke2) as -> by congruence.
    exact (NoDup_keys_functional (environments app) ke2 e1 e2 (K a app Ha) H1 H2).
Qed.

(** X13. After [reset] on a backend every name is free again:
    [create_application] with any name succeeds, and then
    [describe_applications] lists the new application alone and
    [describe_environments] lists nothing. *)
Theorem reset_then_create_application s self b name :
  backends s !! self = Some b ->
  exists s1 app s2,
    reset self s = Ok tt s1 /\
    create_application self name s1 = Ok app s2 /\
    describe_applications self s2 = Ok [app] s2 /\
    describe_environments self s2 = Ok [] s2.
Proof.
  intros Hb. rewrite reset_eval, Hb.
  remember (mkStore (<[self := mkEBBackend (region b) (length (dicts s))]> (backends s))
              (dicts s ++ [[]]) (apps s) (envs s)) as s1 eqn:Es1.
  assert (Hb1 : backends s1 !! self = Some (mkEBBackend (region b) (length (dicts s)))).
  { subst s1. simpl. apply list_lookup_insert_eq. exact (lookup_lt_Some _ _ _ Hb). }
  assert (Hd1 : dicts s1 !! length (dicts s) = Some ([] : dict addr)).
  { subst s1. simpl. now apply list_lookup_middle. }
  exists s1, (length (apps s1)).
  remember (mkStore (backends s1)
              (<[length (dicts s) := dict_set name (length (apps s1)) []]> (dicts s1))
              (apps s1 ++ [mkApplication self name []]) (envs s1)) as s2 eqn:Es2.
  exists s2. split; [reflexivity|].
  split; [rewrite create_application_eval, Hb1; simpl; rewrite Hd1; now subst s2|].
  assert (Hb2 : backends s2 !! self = Some (mkEBBackend (region b) (length (dicts s)))).
  { now subst s2. }
  assert (Hd2 : dicts s2 !! length (dicts s) = Some [(name, length (apps s1))]).
  { subst s2. simpl. apply list_lookup_insert_eq. exact (lookup_lt_Some _ _ _ Hd1). }
  assert (Ha2 : apps s2 !! length (apps s1) = Some (mkApplication self name [])).
  { subst s2. simpl. now apply list_lookup_middle. }
  split.
  - now rewrite (describe_applications_eval s2 self _ _ Hb2 Hd2).
  - unfold describe_environments, bind.
    rewrite (describe_applications_eval s2 self _ _ Hb2 Hd2). simpl.
    unfold bind, get_app, deref. now rewrite Ha2.
Qed.

(** X14. [reset] on a backend does not change what the application objects
    created before report: for every application object of the store,
    [region] and [arn] return after the reset what they returned before. *)
Theorem reset_keeps_application_arn s self s1 a :
  reset self s = Ok tt s1 ->
  Application_region a s1 = with_store (Application_region a s) s1 /\
  Application_arn a s1 = with_store (Application_arn a s) s1.
Proof.
  rewrite reset_eval. destruct (backends s !! self) as [b|] eqn:Hb; [|discriminate].
  intros [= <-].
  assert (Hreg : forall x,
    match <[self := mkEBBackend (region b) (length (dicts s))]> (backends s) !! x,
          backends s !! x with
    | Some b1, Some b0 => region b1 = region b0
    | None, None => True
    | _, _ => False
    end).
  { intros x. destruct (decide (x = self)) as [->|Hne].
    - rewrite list_lookup_insert_eq by exact (lookup_lt_Some _ _ _ Hb). now rewrite Hb.
    - rewrite list_lookup_insert_ne by congruence. now destruct (backends s !! x). }
  unfold Application_arn, Application_region. munfold.
  destruct (apps s !! a) as [app|] eqn:Ha;
    repeat (cbn -[String.append]; rewrite ?Ha); [|now split].
  specialize (Hreg (backend app)).
  destruct (<[self := _]> (backends s) !! backend app) as [b1|] eqn:E1,
    (backends s !! backend app) as [b0|] eqn:E0; try easy;
    repeat (cbn -[String.append]; rewrite ?Ha, ?E1, ?E0);
    rewrite ?Hreg; now split.
Qed.

(** X15. An application that [create_application] has just returned accepts
    every environment name: [create_environment] under its name succeeds,
    and the new environment is the only one of the application. *)
Theorem create_application_then_environment s self name app s1 ename stack tgs :
  create_application self name s = Ok app s1 ->
  exists env s2 a2,
    create_environment self name ename stack tgs s1 = Ok env s2 /\
    envs s2 !! env = Some (mkEnvironment app ename stack tgs) /\
    apps s2 !! app = Some a2 /\ environments a2 = [(ename, env)].
Proof.
  rewrite create_application_eval.
  destruct (backends s !! self) as [b|] eqn:Hb; [|discriminate].
  destruct (dicts s !! applications b) as [d|] eqn:Hd; [|discriminate].
  destruct (dict_contains name d); [discriminate|].
  intros [= <- <-].
  assert (Hd1 : <[applications b := dict_set name (length (apps s)) d]> (dicts s)
                  !! applications b = Some (dict_set name (length (apps s)) d)).
  { apply list_lookup_insert_eq. exact (lookup_lt_Some _ _ _ Hd). }
  assert (Ha1 : (apps s ++ [mkApplication self name []]) !! length (apps s)
                = Some (mkApplication self name [])).
  { now apply list_lookup_middle. }
  rewrite create_environment_eval. simpl. rewrite Hb, Hd1, dict_get_set.
  rewrite Application_create_environment_eval. simpl. rewrite Ha1. simpl.
  eexists. eexists. eexists. split; [reflexivity|]. simpl.
  split; [now apply list_lookup_middle|].
  split; [apply list_lookup_insert_eq; rewrite length_app; simpl; lia | reflexivity].
Qed.
(** *** Identifiers without collisions *)

Lemma no_slash_cons c a :
  no_slash (String c a) = true -> String c EmptyString <> "/" /\ no_slash a = true.
Proof.
  intros H.
  change (negb (String.eqb (String c EmptyString) "/") && no_slash a = true) in H.
  apply andb_true_iff in H as [H1 H2].
  split; [|exact H2]. apply negb_true_iff, String.eqb_neq in H1. exact H1.
Qed.

(** A path determines its two names when the first one has no slash. *)
Lemma path_inj a a' e e' :
  no_slash a = true -> no_slash a' = true ->
  a +:+ "/" +:+ e = a' +:+ "/" +:+ e' -> a = a' /\ e = e'.
Proof.
  revert a'. induction a as [|c a IH]; intros [|c' a'] Ha Ha' H;
    unfold String.append in H; fold String.append in H.
  - injection H as ->. now split.
  - apply no_slash_cons in Ha' as [Hc _]. injection H as <- _. now destruct Hc.
  - apply no_slash_cons in Ha as [Hc _]. injection H as -> _. now destruct Hc.
  - apply no_slash_cons in Ha as [_ Ha]. apply no_slash_cons in Ha' as [_ Ha'].
    injection H as -> H. destruct (IH a' Ha Ha' H) as [-> ->]. now split.
Qed.

Lemma all_environments_entry s d e :
  In e (all_environments s d) ->
  exists k a app ke,
    In (k, a) d /\ apps s !! a = Some app /\ In (ke, e) (environments app).
Proof.
  intros Hin. unfold all_environments in Hin.
  apply in_flat_map in Hin as (a & Ha & He).
  apply In_dict_values in Ha as (k & Hk).
  unfold environments_of in He.
  destruct (apps s !! a) as [app|] eqn:Happ; [|now destruct He].
  apply In_dict_values in He as (ke & Hke).
  now exists k, a, app, ke.
Qed.

(** With slash-free application names and a [make_arn] that keeps paths
    apart, an identifier tells the application. *)
Lemma identifier_same_application s self b d k1 a1 app1 ke1 e1 k2 a2 app2 ke2 e2 arn :
  (forall r acc kind p p', make_arn r acc kind p = make_arn r acc kind p' -> p = p') ->
  wf s -> backends s !! self = Some b -> dicts s !! applications b = Some d ->
  (forall k a, In (k, a) d -> no_slash k = true) ->
  In (k1, a1) d -> apps s !! a1 = Some app1 -> In (ke1, e1) (environments app1) ->
  In (k2, a2) d -> apps s !! a2 = Some app2 -> In (ke2, e2) (environments app2) ->
  identifier_is s e1 arn -> identifier_is s e2 arn ->
  k1 = k2 /\ a1 = a2.
Proof.
  intros Hinj W Hb Hd Hns Hk1 Ha1 He1 Hk2 Ha2 He2 Hid1 Hid2.
  unfold identifier_is in *.
  rewrite (wf_environment_arn s self b d k1 a1 app1 ke1 e1 W Hb Hd Hk1 Ha1 He1) in Hid1.
  rewrite (wf_environment_arn s self b d k2 a2 app2 ke2 e2 W Hb Hd Hk2 Ha2 He2) in Hid2.
  injection Hid1 as Hid1. injection Hid2 as Hid2.
  rewrite <- Hid2 in Hid1. apply Hinj in Hid1.
  apply path_inj in Hid1 as [-> _]; [|exact (Hns _ _ Hk1)|exact (Hns _ _ Hk2)].
  split; [reflexivity|].
  exact (NoDup_keys_functional d k2 a1 a2 (wf_keys s W self b d Hb Hd) Hk1 Hk2).
Qed.


Lemma create_application_Ok_inv s self name app s1 :
  create_application self name s = Ok app s1 ->
  exists b d,
    backends s !! self = Some b /\ dicts s !! applications b = Some d /\
    dict_get name d = None /\ app = length (apps s) /\
    s1 = mkStore (backends s)
           (<[applications b := dict_set name (length (apps s)) d]> (dicts s))
           (apps s ++ [mkApplication self name []]) (envs s).
Proof.
  rewrite create_application_eval.
  destruct (backends s !! self) as [b|] eqn:Hb; [|discriminate].
  destruct (dicts s !! applications b) as [d|] eqn:Hd; [|discriminate].
  rewrite dict_contains_get.
  destruct (dict_get name d) eqn:Hg; [discriminate|].
  intros [= <- <-]. now exists b, d.
Qed.

(** X17. Provided [make_arn] maps different paths to different strings: in
    a reachable store where no application name registered with the backend
    contains a slash, create an application under a slash-free name and
    then its first environment.  The identifier of that environment
    resolves to it, and [list_tags_for_resource] on the identifier answers
    with the identifier and the tags the environment was created with. *)
Theorem create_then_list_tags s self b d name app s1 ename stack tgs env s2 :
  (forall r acc kind p p', make_arn r acc kind p = make_arn r acc kind p' -> p = p') ->
  reachable s ->
  backends s !! self = Some b -> dicts s !! applications b = Some d ->
  (forall k a, In (k, a) d -> no_slash k = true) -> no_slash name = true ->
  create_application self name s = Ok app s1 ->
  create_environment self name ename stack tgs s1 = Ok env s2 ->
  _find_environment_by_arn self (environment_identifier (region b) name ename) s2 =
    Ok env s2 /\
  list_tags_for_resource self (environment_identifier (region b) name ename) s2 =
    Ok (environment_identifier (region b) name ename, tgs) s2.
Proof.
  intros Hinj R Hb Hd Hns Hname Hca Hce.
  assert (W1 : wf s1).
  { replace s1 with (store_of (create_application self name s)) by now rewrite Hca.
    apply wf_create_application. now apply reachable_wf. }
  apply create_application_Ok_inv in Hca as (b' & d' & Hb' & Hd' & Hfree & -> & Es1).
  rewrite Hb in Hb'. injection Hb' as <-.
  pose proof (eq_trans (eq_sym Hd') Hd) as Ed. injection Ed as ->. clear Hd'.
  assert (Hb1 : backends s1 !! self = Some b) by now subst s1.
  assert (Hd1 : dicts s1 !! applications b = Some (dict_set name (length (apps s)) d)).
  { subst s1. simpl. apply list_lookup_insert_eq. exact (lookup_lt_Some _ _ _ Hd). }
  assert (Ha1 : apps s1 !! length (apps s) = Some (mkApplication self name [])).
  { subst s1. simpl. now apply list_lookup_middle. }
  assert (Hns1 : forall k a, In (k, a) (dict_set name (length (apps s)) d) ->
                             no_slash k = true).
  { intros k a Hin. apply In_dict_set in Hin as [[-> _]|Hin]; [exact Hname|].
    exact (Hns k a Hin). }
  destruct (created_environment_facts s1 self b name ename stack tgs env s2 W1 Hb1 Hce)
    as (W2 & Hb2 & d2 & app2 & a2 & Hd1' & Hd2 & Hin & Ha2 & Hn & Hbk & Hine & He2).
  pose proof (eq_trans (eq_sym Hd1') Hd1) as Ed. injection Ed as ->. clear Hd1'.
  apply create_environment_Ok_inv in Hce
    as (b3 & d3 & app3 & a3 & Hb3 & Hd3 & Hg3 & Ha3 & Hfree3 & -> & Es2).
  rewrite Hb1 in Hb3. injection Hb3 as <-.
  pose proof (eq_trans (eq_sym Hd3) Hd1) as Ed. injection Ed as ->. clear Hd3.
  rewrite dict_get_set in Hg3. injection Hg3 as <-.
  rewrite Ha1 in Ha3. injection Ha3 as <-.
  assert (app2 = length (apps s)) as ->.
  { apply (NoDup_keys_functional _ name app2 (length (apps s))
             (wf_keys s1 W1 self b _ Hb1 Hd1) Hin).
    apply In_dict_get_inv, dict_get_set. }
  assert (Henvs : environments a2 = [(ename, length (envs s1))]).
  { subst s2. simpl in Ha2.
    rewrite list_lookup_insert_eq in Ha2 by exact (lookup_lt_Some _ _ _ Ha1).
    now injection Ha2 as <-. }
  assert (Hid : identifier_is s2 (length (envs s1))
                  (environment_identifier (region b) name ename)).
  { exact (wf_environment_arn s2 self b _ name _ a2 ename _ W2 Hb2 Hd2 Hin Ha2 Hine). }
  assert (Hall : In (length (envs s1))
                   (all_environments s2 (dict_set name (length (apps s)) d))).
  { unfold all_environments. apply in_flat_map. exists (length (apps s)).
    split; [exact (In_dict_values_intro _ _ _ Hin)|].
    unfold environments_of. rewrite Ha2. exact (In_dict_values_intro _ _ _ Hine). }
  destruct (identifier_resolves s2 self b _ _ _ W2 Hb2 Hd2 Hall Hid)
    as (res & e & Hfind & Hres & Hidres & Hlook & Hlist).
  assert (res = length (envs s1)) as ->.
  { apply all_environments_entry in Hres as (k & a & appx & ke & Hk & Hax & Hke).
    destruct (identifier_same_application s2 self b _ k a appx ke res name _ a2 ename _ _
                Hinj W2 Hb2 Hd2 Hns1 Hk Hax Hke Hin Ha2 Hine Hidres Hid) as [_ ->].
    rewrite Ha2 in Hax. injection Hax as <-.
    rewrite Henvs in Hke. destruct Hke as [[= _ <-]|[]]. reflexivity. }
  split; [exact Hfind|].
  rewrite Hlist. rewrite He2 in Hlook. now injection Hlook as <-.
Qed.
(** *** Backends do not interfere *)

Lemma agree_on_refl j s : agree_on j s s.
Proof. intros b Hb. now repeat split. Qed.

Lemma find_agree {A} (p q : A -> bool) (l : list A) :
  (forall x, In x l -> p x = q x) -> find p l = find q l.
Proof.
  induction l as [|x l IH]; intros H; simpl; [reflexivity|].
  rewrite <- (H x (or_introl eq_refl)). destruct (p x); [reflexivity|].
  apply IH. intros y Hy. apply H. now right.
Qed.

(** What a backend lists and answers depends only on what it holds. *)
Lemma reads_agree j s s' b :
  wf s -> wf s' -> agree_on j s s' -> backends s !! j = Some b ->
  describe_applications j s' = with_store (describe_applications j s) s' /\
  describe_environments j s' = with_store (describe_environments j s) s' /\
  forall arn,
    _find_environment_by_arn j arn s' = with_store (_find_environment_by_arn j arn s) s' /\
    list_tags_for_resource j arn s' = with_store (list_tags_for_resource j arn s) s'.
Proof.
  intros W W' Hag Hb.
  destruct (dicts s !! applications b) as [d|] eqn:Hd.
  2:{ apply lookup_ge_None_1 in Hd. pose proof (wf_dict s W j b Hb). lia. }
  destruct (Hag b Hb) as (Hb' & Hag1). destruct (Hag1 d Hd) as (Hd' & Hag2).
  assert (Hall : all_environments s' d = all_environments s d).
  { unfold all_environments. apply flat_map_agree. intros a Ha.
    apply In_dict_values in Ha as (k & Hk).
    destruct (wf_apps s W j b d k a Hb Hd Hk) as (app & Happ & _).
    destruct (Hag2 k a app Hk Happ) as (Happ' & _).
    unfold environments_of. now rewrite Happ, Happ'. }
  split; [|split].
  - now rewrite (describe_applications_eval s j b d Hb Hd),
      (describe_applications_eval s' j b d Hb' Hd').
  - now rewrite (describe_environments_eval s j b d W Hb Hd),
      (describe_environments_eval s' j b d W' Hb' Hd'), Hall.
  - intros arn.
    assert (Hm : find (arn_matches s' arn) (all_environments s d) =
                 find (arn_matches s arn) (all_environments s d)).
    { apply find_agree. intros e He.
      apply all_environments_entry in He as (k & a & app & ke & Hk & Happ & Hke).
      destruct (Hag2 k a app Hk Happ) as (Happ' & _).
      unfold arn_matches.
      now rewrite (wf_environment_arn s j b d k a app ke e W Hb Hd Hk Happ Hke),
        (wf_environment_arn s' j b d k a app ke e W' Hb' Hd' Hk Happ' Hke). }
    unfold list_tags_for_resource, bind at 1 3, except_KeyError.
    rewrite (find_environment_by_arn_eval s j b d arn W Hb Hd).
    rewrite (find_environment_by_arn_eval s' j b d arn W' Hb' Hd'), Hall, Hm.
    destruct (find (arn_matches s arn) (all_environments s d)) as [res|] eqn:Hres;
      [|now split].
    split; [reflexivity|].
    apply find_some in Hres as [Hres _].
    apply all_environments_entry in Hres as (k & a & app & ke & Hk & Happ & Hke).
    destruct (wf_envs s W a app ke res Happ Hke) as (env & Henv & _).
    destruct (Hag2 k a app Hk Happ) as (_ & Hag3).
    unfold bind, get_env, deref. now rewrite Henv, (Hag3 ke res env Hke Henv).
Qed.

Lemma tag_loops_store_unchanged s res adds removes :
  envs s !! res = None \/ (exists e, envs s !! res = Some e /\ tags e = None) ->
  store_of ((let* _ := for_each adds (add_tag res) in for_each removes (remove_tag res)) s)
  = s.
Proof.
  intros H.
  assert (Hadd : forall tag, add_tag res tag s = Raise ReferenceError s \/
                             add_tag res tag s = Raise TypeError s).
  { intros tag. unfold add_tag. munfold.
    destruct H as [H|(e & H & Ht)]; rewrite H; simpl; [now left|].
    rewrite Ht. now right. }
  assert (Hrem : forall key, remove_tag res key s = Raise ReferenceError s \/
                             remove_tag res key s = Raise TypeError s).
  { intros key. unfold remove_tag. munfold.
    destruct H as [H|(e & H & Ht)]; rewrite H; simpl; [now left|].
    rewrite Ht. now right. }
  destruct adds as [|tag adds]; simpl.
  - destruct removes as [|key removes]; simpl; [reflexivity|].
    unfold bind at 1 2. simpl. now destruct (Hrem key) as [-> | ->].
  - unfold bind at 1 2. now destruct (Hadd tag) as [-> | ->].
Qed.

(** The store after [update_tags_for_resource]: the one before, or the one
    before with new tags for the environment that the identifier resolves
    to. *)
Lemma update_tags_store s self arn adds removes :
  store_of (update_tags_for_resource self arn adds removes s) = s \/
  exists res e l',
    _find_environment_by_arn self arn s = Ok res s /\ envs s !! res = Some e /\
    update_tags_for_resource self arn adds removes s =
    Ok tt (mkStore (backends s) (dicts s) (apps s)
             (<[res := with_tags e (Some l')]> (envs s))).
Proof.
  pose proof (pure_find_environment_by_arn self arn s) as Hp.
  destruct (_find_environment_by_arn self arn s) as [res s0|x s0] eqn:Hf;
    simpl in Hp; subst s0.
  - destruct (envs s !! res) as [e|] eqn:He.
    + destruct (tags e) as [l|] eqn:Hl.
      * right. exists res, e, (spec_remove_all removes (spec_upsert_all adds l)).
        split; [reflexivity|]. split; [exact He|].
        rewrite (update_tags_eval s self arn res e l adds removes Hf He Hl).
        unfold store_with_tags. now rewrite He.
      * left. unfold update_tags_for_resource, bind at 1, except_KeyError. rewrite Hf.
        apply tag_loops_store_unchanged. right. now exists e.
    + left. unfold update_tags_for_resource, bind at 1, except_KeyError. rewrite Hf.
      apply tag_loops_store_unchanged. now left.
  - left. unfold update_tags_for_resource, bind at 1, except_KeyError. rewrite Hf.
    now destruct x.
Qed.

Lemma find_environment_by_arn_Ok_inv s self arn res :
  wf s -> _find_environment_by_arn self arn s = Ok res s ->
  exists b d k a app ke,
    backends s !! self = Some b /\ dicts s !! applications b = Some d /\
    In (k, a) d /\ apps s !! a = Some app /\ In (ke, res) (environments app).
Proof.
  intros W Hf.
  destruct (backends s !! self) as [b|] eqn:Hb.
  2:{ unfold _find_environment_by_arn, bind at 1, get_backend, deref in Hf.
      rewrite Hb in Hf. discriminate. }
  destruct (dicts s !! applications b) as [d|] eqn:Hd.
  2:{ apply lookup_ge_None_1 in Hd. pose proof (wf_dict s W self b Hb). lia. }
  rewrite (find_environment_by_arn_eval s self b d arn W Hb Hd) in Hf.
  destruct (find (arn_matches s arn) (all_environments s d)) as [r|] eqn:Hres;
    [|discriminate].
  injection Hf as ->. apply find_some in Hres as [Hres _].
  apply all_environments_entry in Hres as (k & a & app & ke & Hk & Happ & Hke).
  now exists b, d, k, a, app, ke.
Qed.

Lemma call_agree j s c :
  wf s -> call_self c <> Some j -> agree_on j s (run_call c s).
Proof.
  intros W Hc.
  destruct c as [r|self|self name|self name ename stack tgs|self arn adds removes|self arn];
    simpl in *.
  - intros b Hb. split; [now apply lookup_app_l_Some|].
    intros d Hd. split; [now apply lookup_app_l_Some|]. now repeat split.
  - rewrite reset_eval.
    destruct (backends s !! self) as [b0|] eqn:Hself; [|apply agree_on_refl]. simpl.
    intros b Hb. simpl. split; [rewrite list_lookup_insert_ne; congruence|].
    intros d Hd. split; [now apply lookup_app_l_Some|]. now repeat split.
  - rewrite create_application_eval.
    destruct (backends s !! self) as [b0|] eqn:Hself; [|apply agree_on_refl].
    destruct (dicts s !! applications b0) as [d0|] eqn:Hd0; [|apply agree_on_refl].
    destruct (dict_contains name d0); [apply agree_on_refl|]. simpl.
    intros b Hb. simpl. split; [exact Hb|].
    intros d Hd. split.
    + rewrite list_lookup_insert_ne; [exact Hd|].
      intros Heq. apply Hc. f_equal.
      exact (wf_own s W self j b0 b Hself Hb Heq).
    + intros k a app Hk Ha. split; [now apply lookup_app_l_Some|]. auto.
  - rewrite create_environment_eval.
    destruct (backends s !! self) as [b0|] eqn:Hself; [|apply agree_on_refl].
    destruct (dicts s !! applications b0) as [d0|] eqn:Hd0; [|apply agree_on_refl].
    destruct (dict_get name d0) as [app0|] eqn:Hg; [|apply agree_on_refl].
    rewrite Application_create_environment_eval.
    destruct (apps s !! app0) as [a0|] eqn:Ha0; [|apply agree_on_refl].
    destruct (dict_contains ename (environments a0)); [apply agree_on_refl|]. simpl.
    intros b Hb. simpl. split; [exact Hb|].
    intros d Hd. split; [exact Hd|].
    intros k a app Hk Ha. split.
    + rewrite list_lookup_insert_ne; [exact Ha|].
      intros <-. apply Hc. f_equal.
      destruct (wf_apps s W self b0 d0 name app0 Hself Hd0 (In_dict_get_inv _ _ _ Hg))
        as (x & Hx & _ & Hbx).
      destruct (wf_apps s W j b d k app0 Hb Hd Hk) as (y & Hy & _ & Hby).
      congruence.
    + intros ke e env Hke He. now apply lookup_app_l_Some.
  - destruct (update_tags_store s self arn adds removes)
      as [->|(res & e0 & l' & Hf & He0 & ->)]; [apply agree_on_refl|].
    intros b Hb. simpl. split; [exact Hb|].
    intros d Hd. split; [exact Hd|].
    intros k a app Hk Ha. split; [exact Ha|].
    intros ke e env Hke He.
    rewrite list_lookup_insert_ne; [exact He|].
    intros <-. apply Hc. f_equal.
    destruct (find_environment_by_arn_Ok_inv s self arn res W Hf)
      as (b0 & d0 & k0 & a0 & app0 & ke0 & Hb0 & Hd0 & Hk0 & Ha0 & Hke0).
    destruct (wf_envs s W a0 app0 ke0 res Ha0 Hke0) as (x & Hx & _ & Hax).
    destruct (wf_envs s W a app ke res Ha Hke) as (y & Hy & _ & Hay).
    assert (Heq : a0 = a) by congruence. clear Hax Hay. subst a0.
    destruct (wf_apps s W self b0 d0 k0 a Hb0 Hd0 Hk0) as (x' & Hx' & _ & Hbx).
    destruct (wf_apps s W j b d k a Hb Hd Hk) as (y' & Hy' & _ & Hby).
    congruence.
  - rewrite pure_list_tags_for_resource. apply agree_on_refl.
Qed.

(** X18. In a reachable store, a call on one backend, or the construction
    of a new backend, changes nothing of what another backend lists or of
    where its identifiers lead: for a backend that the call is not made on,
    [describe_applications], [describe_environments] and
    [_find_environment_by_arn] return after the call what they returned
    before, and so does [list_tags_for_resource] unless the call is an
    [update_tags_for_resource]. *)
Theorem backends_do_not_interfere s j b c :
  reachable s -> backends s !! j = Some b -> call_self c <> Some j ->
  describe_applications j (run_call c s) =
    with_store (describe_applications j s) (run_call c s) /\
  describe_environments j (run_call c s) =
    with_store (describe_environments j s) (run_call c s) /\
  (forall arn, _find_environment_by_arn j arn (run_call c s) =
               with_store (_find_environment_by_arn j arn s) (run_call c s)) /\
  ((forall self arn adds removes, c <> CallUpdateTags self arn adds removes) ->
   forall arn, list_tags_for_resource j arn (run_call c s) =
               with_store (list_tags_for_resource j arn s) (run_call c s)).
Proof.
  intros R Hb Hc. apply reachable_wf in R.
  destruct (reads_agree j s (run_call c s) b R (wf_run_call s c R) (call_agree j s c R Hc) Hb)
    as (H1 & H2 & H3).
  split; [exact H1|]. split; [exact H2|].
  split; [intros arn; exact (proj1 (H3 arn)) | intros _ arn; exact (proj2 (H3 arn))].
Qed.
(** *** The value under a key, and failures *)

Lemma find_has_key_upsert k tag l :
  find (has_key k) (spec_upsert tag l) =
  if String.eqb (tag_key tag) k
  then match find (has_key k) l with
       | Some t => Some (mkTag (tag_key t) (tag_value tag))
       | None => Some tag
       end
  else find (has_key k) l.
Proof.
  induction l as [|t l IH]; simpl.
  - unfold has_key. now destruct (String.eqb (tag_key tag) k).
  - destruct (String.eqb_spec (tag_key t) (tag_key tag)) as [Ht|Ht]; simpl.
    + unfold has_key. simpl. rewrite <- Ht.
      now destruct (String.eqb (tag_key t) k).
    + rewrite IH. unfold has_key at 1 4 6.
      destruct (String.eqb_spec (tag_key t) k) as [Hk|Hk]; [|reflexivity].
      destruct (String.eqb_spec (tag_key tag) k); [congruence | reflexivity].
Qed.

Lemma find_has_key_remove k key l :
  key <> k -> find (has_key k) (spec_remove key l) = find (has_key k) l.
Proof.
  intros Hne. induction l as [|t l IH]; simpl; [reflexivity|].
  unfold has_key at 2.
  destruct (String.eqb_spec (tag_key t) key) as [Ht|Ht].
  - destruct (String.eqb_spec (tag_key t) k); [congruence | reflexivity].
  - simpl. unfold has_key at 1. now destruct (String.eqb (tag_key t) k).
Qed.

Lemma find_has_key_remove_all k removes l :
  ~ In k removes ->
  find (has_key k) (spec_remove_all removes l) = find (has_key k) l.
Proof.
  revert l. induction removes as [|key removes IH]; intros l Hn; simpl; [reflexivity|].
  unfold spec_remove_all in IH. rewrite IH by (intros H; apply Hn; now right).
  apply find_has_key_remove. intros ->. apply Hn. now left.
Qed.

Lemma value_after_upsert_all k adds l :
  option_map tag_value (find (has_key k) (spec_upsert_all adds l)) =
  match find (has_key k) (rev adds) with
  | Some t => Some (tag_value t)
  | None => option_map tag_value (find (has_key k) l)
  end.
Proof.
  revert l. induction adds as [|tag adds IH]; intros l; simpl; [reflexivity|].
  unfold spec_upsert_all in IH. rewrite IH, find_app.
  destruct (find (has_key k) (rev adds)) as [t|]; [reflexivity|].
  rewrite find_has_key_upsert. simpl. unfold has_key.
  destruct (String.eqb (tag_key tag) k); [|reflexivity].
  now destruct (find (fun t => String.eqb (tag_key t) k) l).
Qed.

(** X19. For an environment that the identifier resolves to and whose tags
    are a list, and a key that is not to be removed: after
    [update_tags_for_resource] the value of the first tag with the key is
    the value of the last tag to add that has the key, and when no tag to
    add has the key it is the value the key had before (or the key is still
    absent). *)
Theorem update_tags_last_value_wins s self arn res e l adds removes k :
  _find_environment_by_arn self arn s = Ok res s ->
  envs s !! res = Some e -> tags e = Some l ->
  ~ In k removes ->
  exists l',
    update_tags_for_resource self arn adds removes s = Ok tt (store_with_tags s res l') /\
    envs (store_with_tags s res l') !! res = Some (with_tags e (Some l')) /\
    option_map tag_value (find (has_key k) l') =
    match find (has_key k) (rev adds) with
    | Some t => Some (tag_value t)
    | None => option_map tag_value (find (has_key k) l)
    end.
Proof.
  intros Hf He Hl Hn.
  exists (spec_remove_all removes (spec_upsert_all adds l)).
  split; [exact (update_tags_eval s self arn res e l adds removes Hf He Hl)|].
  split; [exact (store_with_tags_lookup s res e _ He)|].
  rewrite find_has_key_remove_all by exact Hn.
  apply value_after_upsert_all.
Qed.

(** X20. None of the operations of a backend leaves a store half changed:
    when [create_application], [create_environment], [reset],
    [update_tags_for_resource] or [list_tags_for_resource] raises, in any
    store, the store after the call is the store before it. *)
Theorem failures_leave_store s self name ename stack tgs arn adds removes :
  (forall x s', create_application self name s = Raise x s' -> s' = s) /\
  (forall x s', create_environment self name ename stack tgs s = Raise x s' -> s' = s) /\
  (forall x s', reset self s = Raise x s' -> s' = s) /\
  (forall x s', update_tags_for_resource self arn adds removes s = Raise x s' -> s' = s) /\
  (forall x s', list_tags_for_resource self arn s = Raise x s' -> s' = s).
Proof.
  split; [|split; [|split; [|split]]]; intros x s'.
  - rewrite create_application_eval.
    destruct (backends s !! self) as [b|]; [|now intros [= _ <-]].
    destruct (dicts s !! applications b) as [d|]; [|now intros [= _ <-]].
    destruct (dict_contains name d); [now intros [= _ <-] | discriminate].
  - rewrite create_environment_eval.
    destruct (backends s !! self) as [b|]; [|now intros [= _ <-]].
    destruct (dicts s !! applications b) as [d|]; [|now intros [= _ <-]].
    destruct (dict_get name d) as [app|]; [|now intros [= _ <-]].
    rewrite Application_create_environment_eval.
    destruct (apps s !! app) as [a|]; [|now intros [= _ <-]].
    destruct (dict_contains ename (environments a)); [now intros [= _ <-] | discriminate].
  - rewrite reset_eval.
    destruct (backends s !! self) as [b|]; [discriminate | now intros [= _ <-]].
  - intros H.
    destruct (update_tags_store s self arn adds removes)
      as [Hs|(res & e & l' & _ & _ & Hs)]; rewrite H in Hs; [exact Hs | discriminate].
  - intros H. pose proof (pure_list_tags_for_resource self arn s) as Hp.
    now rewrite H in Hp.
Qed.
End Models.

(** ** The theorems at concrete inputs *)

Lemma example_store_reachable : reachable make_arn_model ACCOUNT_ID_model example_store.
Proof.
  exact (reachable_run_calls make_arn_model ACCOUNT_ID_model example_calls empty_store
           (reachable_empty _ _)).
Qed.

Lemma colliding_store_reachable : reachable make_arn_model ACCOUNT_ID_model colliding_store.
Proof.
  exact (reachable_run_calls make_arn_model ACCOUNT_ID_model colliding_calls empty_store
           (reachable_empty _ _)).
Qed.

(** C1 at the example registry: the identifiers of "env1" and of "app1". *)
Lemma identifier_derivation_witness :
  Environment_environment_arn make_arn_model ACCOUNT_ID_model 0 example_store =
    Ok example_arn example_store /\
  Application_arn make_arn_model ACCOUNT_ID_model 0 example_store =
    Ok "arn:aws:elasticbeanstalk:us-east-1:123456789012:application/app1" example_store.
Proof.
  destruct (identifier_derivation make_arn_model ACCOUNT_ID_model example_store 0
              (mkEBBackend "us-east-1" 0) [("app1", 0); ("app2", 1)]
              "app1" 0 (mkApplication 0 "app1" [("env1", 0)])
              "env1" 0
              (mkEnvironment 0 "env1" (Some "64bit Amazon Linux") (Some [mkTag "a" "1"]))
              example_store_reachable eq_refl eq_refl (or_introl eq_refl) eq_refl
              (or_introl eq_refl) eq_refl) as (H1 & H2 & _).
  split; [exact H1 | exact H2].
Defined.

(** C9 at the example registry: the application stored under "app1". *)
Lemma keyed_by_own_name_witness :
  exists app,
    apps example_store !! 0 = Some app /\ application_name app = "app1" /\
    forall ke e, In (ke, e) (environments app) ->
      exists env, envs example_store !! e = Some env /\ environment_name env = ke.
Proof.
  exact (keyed_by_own_name make_arn_model ACCOUNT_ID_model example_store 0
           (mkEBBackend "us-east-1" 0) [("app1", 0); ("app2", 1)] "app1" 0
           example_store_reachable eq_refl eq_refl (or_introl eq_refl)).
Defined.

(** C2 at the example registry: the identifier of "env1" resolves to it. *)
Lemma find_environment_by_identifier_witness :
  describe_environments 0 example_store = Ok [0] example_store /\
  (forall env,
     _find_environment_by_arn make_arn_model ACCOUNT_ID_model 0 example_arn example_store
       = Ok env example_store <->
     first_match make_arn_model ACCOUNT_ID_model example_store [0] example_arn env).
Proof.
  destruct (find_environment_by_identifier make_arn_model ACCOUNT_ID_model example_store 0
              (mkEBBackend "us-east-1" 0) [("app1", 0); ("app2", 1)] example_arn
              example_store_reachable eq_refl eq_refl) as (H1 & H2 & _).
  split; [exact H1 | exact H2].
Defined.

(** C5 at the example registry: "app3" created twice. *)
Lemma create_application_twice_witness :
  create_application 0 "app3" (store_of (create_application 0 "app3" example_store)) =
  Raise (InvalidParameterValueError ["Application app3 already exists."])
    (store_of (create_application 0 "app3" example_store)).
Proof.
  exact (proj1 (create_application_twice example_store 0 (mkEBBackend "us-east-1" 0)
                  [("app1", 0); ("app2", 1)] "app3" eq_refl eq_refl)).
Defined.

(** C3, as amended, at the example registry: the unregistered name "ghost". *)
Lemma create_environment_delegates_witness :
  create_environment 0 "ghost" "env1" None None example_store =
  Raise (InvalidParameterValueError ["No Application named 'ghost' found."]) example_store.
Proof.
  exact (proj1 (create_environment_delegates example_store 0 (mkEBBackend "us-east-1" 0)
                  [("app1", 0); ("app2", 1)] "ghost" "env1" None None eq_refl eq_refl)
           eq_refl).
Defined.

(** C3 as stated fails at the example registry: for the unregistered name
    "ghost" the exception is an [InvalidParameterValueError], the class of
    the duplicate-name failures, and not a [ResourceNotFoundException]. *)
Lemma create_environment_unregistered_counterexample :
  dict_get "ghost" [("app1", 0); ("app2", 1)] = None /\
  create_environment 0 "ghost" "env1" None None example_store =
    Raise (InvalidParameterValueError ["No Application named 'ghost' found."]) example_store /\
  ~ (exists args s',
       create_environment 0 "ghost" "env1" None None example_store =
       Raise (ResourceNotFoundException args) s').
Proof.
  split; [reflexivity|]. split; [reflexivity|].
  intros (args & s' & H). discriminate H.
Qed.



(** C8 at the example registry, whose region is "us-east-1". *)
Lemma reset_replaces_collections_witness :
  exists s',
    reset 0 example_store = Ok tt s' /\
    backends s' !! 0 = Some (mkEBBackend "us-east-1" 1) /\
    dicts s' !! 1 = Some [] /\
    dicts s' !! 0 = Some [("app1", 0); ("app2", 1)] /\
    list_tags_for_resource make_arn_model ACCOUNT_ID_model 0 example_arn s' =
      Raise (not_found_for_arn example_arn) s'.
Proof.
  destruct (reset_replaces_collections make_arn_model ACCOUNT_ID_model example_store 0
              (mkEBBackend "us-east-1" 0) example_store_reachable eq_refl)
    as (s' & H1 & H2 & _ & H4 & _ & H6 & _ & _ & _ & H10).
  exists s'. split; [exact H1|]. split; [exact H2|]. split; [exact H4|].
  split; [exact (H6 0 _ eq_refl)|]. exact (proj1 (proj2 (H10 example_arn))).
Defined.

(** C10 as stated fails when an environment that the scan meets earlier has
    the same identifier: the application "a/b" has the environment "c" with
    an empty tag list; the environment "b/c" is then created under "a"
    without tags.  Both have the path "a/b/c", so the identifier of the new
    environment resolves to the other one, and the update adds the tag
    without raising. *)
Lemma update_tags_without_tag_list_counterexample :
  reachable make_arn_model ACCOUNT_ID_model colliding_store /\
  create_environment 0 "a" "b/c" None None colliding_store = Ok 1 colliding_store_1 /\
  envs colliding_store_1 !! 1 = Some (mkEnvironment 1 "b/c" None None) /\
  Environment_environment_arn make_arn_model ACCOUNT_ID_model 1 colliding_store_1 =
    Ok colliding_arn colliding_store_1 /\
  update_tags_for_resource make_arn_model ACCOUNT_ID_model 0 colliding_arn
    [mkTag "k" "v"] [] colliding_store_1 = Ok tt colliding_store_2.
Proof.
  split; [exact colliding_store_reachable|].
  repeat split; reflexivity.
Qed.

(** C10, as amended, at the example registry: "env9" created under "app2"
    without tags, then a tag added under its identifier. *)
Lemma update_tags_without_tag_list_witness :
  update_tags_for_resource make_arn_model ACCOUNT_ID_model 0
    "arn:aws:elasticbeanstalk:us-east-1:123456789012:environment/app2/env9"
    [mkTag "k" "v"] []
    (store_of (create_environment 0 "app2" "env9" None None example_store)) =
  Raise TypeError (store_of (create_environment 0 "app2" "env9" None None example_store)).
Proof.
  refine (proj1 (update_tags_without_tag_list make_arn_model ACCOUNT_ID_model
                   example_store 0 "app2" "env9" None 1
                   (store_of (create_environment 0 "app2" "env9" None None example_store))
                   "arn:aws:elasticbeanstalk:us-east-1:123456789012:environment/app2/env9"
                   [mkTag "k" "v"] [] eq_refl eq_refl eq_refl _)).
  discriminate.
Defined.

(** ** The further properties at concrete inputs *)

Lemma two_backends_store_reachable :
  reachable make_arn_model ACCOUNT_ID_model two_backends_store.
Proof.
  exact (reachable_run_calls make_arn_model ACCOUNT_ID_model two_backends_calls empty_store
           (reachable_empty _ _)).
Qed.

Lemma ordering_store_reachable :
  reachable make_arn_model ACCOUNT_ID_model ordering_store.
Proof.
  exact (reachable_run_calls make_arn_model ACCOUNT_ID_model ordering_calls empty_store
           (reachable_empty _ _)).
Qed.

Lemma append_inj_l (x p p' : string) : x +:+ p = x +:+ p' -> p = p'.
Proof.
  induction x as [|c x IH]; intros H; unfold String.append in H; fold String.append in H.
  - exact H.
  - injection H as H. now apply IH.
Qed.

Lemma make_arn_model_path_inj r acc kind p p' :
  make_arn_model r acc kind p = make_arn_model r acc kind p' -> p = p'.
Proof.
  unfold make_arn_model. intros H.
  repeat (apply append_inj_l in H). exact H.
Qed.

Lemma example_names_no_slash k (a : nat) :
  In (k, a) [("app1", 0); ("app2", 1)] -> no_slash k = true.
Proof. intros [[= <- _]|[[= <- _]|[]]]; reflexivity. Qed.

(** X2 at the example registry: "app3" is registered after "app1" and
    "app2". *)
Lemma create_application_registers_witness :
  exists s1,
    create_application 0 "app3" example_store = Ok 2 s1 /\
    describe_applications 0 s1 = Ok [0; 1; 2] s1.
Proof.
  destruct (create_application_registers example_store 0 (mkEBBackend "us-east-1" 0)
              [("app1", 0); ("app2", 1)] "app3" eq_refl eq_refl eq_refl)
    as (s1 & H1 & _ & _ & _ & _ & _ & H7).
  exists s1. split; [exact H1 | exact H7].
Defined.

(** X3 at the example registry: "env1" again under "app1", which has it
    already. *)
Lemma create_environment_registered_witness :
  exists a,
    apps example_store !! 0 = Some a /\ application_name a = "app1" /\
    ((dict_get "env1" (environments a) <> None /\
      create_environment 0 "app1" "env1" None None example_store =
      Raise TypeError example_store) \/
     (dict_get "env1" (environments a) = None /\
      exists s1,
        create_environment 0 "app1" "env1" None None example_store =
          Ok (length (envs example_store)) s1 /\
        envs example_store !! length (envs example_store) = None /\
        envs s1 !! length (envs example_store) = Some (mkEnvironment 0 "env1" None None) /\
        exists a1,
          apps s1 !! 0 = Some a1 /\
          dict_get "env1" (environments a1) = Some (length (envs example_store)) /\
          forall k, k <> "env1" ->
            dict_get k (environments a1) = dict_get k (environments a))).
Proof.
  exact (create_environment_registered make_arn_model ACCOUNT_ID_model example_store 0
           (mkEBBackend "us-east-1" 0) [("app1", 0); ("app2", 1)] "app1" 0 "env1"
           None None example_store_reachable eq_refl eq_refl eq_refl).
Defined.

(** X4 at the example registry: "env9" created under "app2". *)
Lemma created_environment_properties_witness :
  Environment_application_name 1
    (store_of (create_environment 0 "app2" "env9" None None example_store)) =
  Ok "app2" (store_of (create_environment 0 "app2" "env9" None None example_store)).
Proof.
  exact (proj1 (created_environment_properties make_arn_model ACCOUNT_ID_model
                  example_store 0 (mkEBBackend "us-east-1" 0) "app2" "env9" None None 1
                  (store_of (create_environment 0 "app2" "env9" None None example_store))
                  example_store_reachable eq_refl eq_refl)).
Defined.

(** X5 where the order shows: "app1" has no environment and "app2" has
    one; the first environment of "app1" is listed before that of "app2". *)
Lemma describe_environments_after_create_witness :
  describe_applications 0
    (store_of (create_environment 0 "app1" "envA" None None ordering_store)) =
    Ok [0; 1] (store_of (create_environment 0 "app1" "envA" None None ordering_store)) /\
  describe_environments 0 ordering_store = Ok [0] ordering_store /\
  describe_environments 0
    (store_of (create_environment 0 "app1" "envA" None None ordering_store)) =
    Ok [1; 0] (store_of (create_environment 0 "app1" "envA" None None ordering_store)).
Proof.
  exact (describe_environments_after_create make_arn_model ACCOUNT_ID_model
           ordering_store 0 (mkEBBackend "us-east-1" 0) [] 0 [("app2", 1)]
           "app1" "envA" None None 1
           (store_of (create_environment 0 "app1" "envA" None None ordering_store))
           ordering_store_reachable eq_refl eq_refl eq_refl).
Defined.

(** X6 at the example registry: the identifier of "env1". *)
Lemma listed_identifier_resolves_witness :
  exists res e,
    _find_environment_by_arn make_arn_model ACCOUNT_ID_model 0 example_arn example_store
      = Ok res example_store /\
    In res [0] /\
    identifier_is make_arn_model ACCOUNT_ID_model example_store res example_arn /\
    envs example_store !! res = Some e /\
    list_tags_for_resource make_arn_model ACCOUNT_ID_model 0 example_arn example_store
      = Ok (example_arn, tags e) example_store.
Proof.
  exact (listed_identifier_resolves make_arn_model ACCOUNT_ID_model example_store 0
           (mkEBBackend "us-east-1" 0) [0] 0 example_arn
           example_store_reachable eq_refl eq_refl (or_introl eq_refl) eq_refl).
Defined.

(** X7 at the example registry: b/2 added to the tags of "env1" and a
    removed, then the tags listed. *)
Lemma update_then_list_tags_witness :
  exists s',
    update_tags_for_resource make_arn_model ACCOUNT_ID_model 0 example_arn
      [mkTag "b" "2"] ["a"] example_store = Ok tt s' /\
    list_tags_for_resource make_arn_model ACCOUNT_ID_model 0 example_arn s' =
      Ok (example_arn, Some [mkTag "b" "2"]) s'.
Proof.
  destruct (update_then_list_tags make_arn_model ACCOUNT_ID_model example_store 0
              example_arn 0
              (mkEnvironment 0 "env1" (Some "64bit Amazon Linux") (Some [mkTag "a" "1"]))
              [mkTag "a" "1"] [mkTag "b" "2"] ["a"] eq_refl eq_refl eq_refl)
    as (s' & H1 & H2 & _).
  exists s'. split; [exact H1 | exact H2].
Defined.

(** X8 at the example registry. *)
Lemma update_tags_nothing_to_do_witness :
  update_tags_for_resource make_arn_model ACCOUNT_ID_model 0 example_arn [] []
    example_store = Ok tt example_store.
Proof.
  exact (proj1 (update_tags_nothing_to_do make_arn_model ACCOUNT_ID_model example_store 0
                  example_arn 0 eq_refl)).
Defined.

(** X9 at the example registry, for an identifier that no environment has. *)
Lemma update_tags_outcomes_witness :
  (exists s',
     update_tags_for_resource make_arn_model ACCOUNT_ID_model 0 "nope"
       [mkTag "k" "v"] [] example_store = Ok tt s' /\
     same_but_tags example_store s') \/
  update_tags_for_resource make_arn_model ACCOUNT_ID_model 0 "nope"
    [mkTag "k" "v"] [] example_store =
    Raise (not_found_for_arn "nope") example_store \/
  update_tags_for_resource make_arn_model ACCOUNT_ID_model 0 "nope"
    [mkTag "k" "v"] [] example_store = Raise TypeError example_store.
Proof.
  exact (update_tags_outcomes make_arn_model ACCOUNT_ID_model example_store 0
           (mkEBBackend "us-east-1" 0) "nope" [mkTag "k" "v"] []
           example_store_reachable eq_refl).
Defined.

(** X10 at the example registry: a/2 added and a removed. *)
Lemma update_tags_add_then_remove_witness :
  update_tags_for_resource make_arn_model ACCOUNT_ID_model 0 example_arn
    [mkTag "a" "2"] ["a"] example_store =
  update_tags_for_resource make_arn_model ACCOUNT_ID_model 0 example_arn
    [] ["a"] example_store.
Proof.
  exact (update_tags_add_then_remove make_arn_model ACCOUNT_ID_model example_store 0
           example_arn 0
           (mkEnvironment 0 "env1" (Some "64bit Amazon Linux") (Some [mkTag "a" "1"]))
           [mkTag "a" "1"] (mkTag "a" "2") eq_refl eq_refl eq_refl).
Defined.

(** X11 at the example registry: b/2 added to the tags [a/1] of "env1". *)
Lemma update_tags_keys_witness :
  exists l',
    update_tags_for_resource make_arn_model ACCOUNT_ID_model 0 example_arn
      [mkTag "b" "2"] [] example_store = Ok tt (store_with_tags example_store 0 l') /\
    NoDup (map tag_key l').
Proof.
  destruct (update_tags_keys make_arn_model ACCOUNT_ID_model example_store 0 example_arn 0
              (mkEnvironment 0 "env1" (Some "64bit Amazon Linux") (Some [mkTag "a" "1"]))
              [mkTag "a" "1"] [mkTag "b" "2"] [] eq_refl eq_refl eq_refl
              (NoDup_singleton "a"))
    as (l' & H1 & _ & H3 & _).
  exists l'. split; [exact H1 | exact H3].
Defined.

(** X12 at the example registry: an application named like "app1" is
    "app1". *)
Lemma names_are_unique_witness :
  apps example_store !! 0 = Some (mkApplication 0 "app1" [("env1", 0)]) /\ 0 = 0.
Proof.
  split; [reflexivity|].
  exact (proj1 (names_are_unique make_arn_model ACCOUNT_ID_model example_store 0
                  (mkEBBackend "us-east-1" 0) [("app1", 0); ("app2", 1)]
                  example_store_reachable eq_refl eq_refl)
           "app1" 0 (mkApplication 0 "app1" [("env1", 0)])
           "app1" 0 (mkApplication 0 "app1" [("env1", 0)])
           (or_introl eq_refl) eq_refl (or_introl eq_refl) eq_refl eq_refl).
Defined.

(** X13 at the example registry: "app1" is free again after a reset. *)
Lemma reset_then_create_application_witness :
  exists s1 app s2,
    reset 0 example_store = Ok tt s1 /\
    create_application 0 "app1" s1 = Ok app s2 /\
    describe_applications 0 s2 = Ok [app] s2 /\
    describe_environments 0 s2 = Ok [] s2.
Proof.
  exact (reset_then_create_application example_store 0 (mkEBBackend "us-east-1" 0) "app1"
           eq_refl).
Defined.

(** X14 at the example registry: the identifier of "app1" after a reset. *)
Lemma reset_keeps_application_arn_witness :
  Application_arn make_arn_model ACCOUNT_ID_model 0 (store_of (reset 0 example_store)) =
  Ok "arn:aws:elasticbeanstalk:us-east-1:123456789012:application/app1"
    (store_of (reset 0 example_store)).
Proof.
  exact (proj2 (reset_keeps_application_arn make_arn_model ACCOUNT_ID_model example_store 0
                  (store_of (reset 0 example_store)) 0 eq_refl)).
Defined.

(** X15 at the example registry: "app3" created, then "env1" under it. *)
Lemma create_application_then_environment_witness :
  exists env s2 a2,
    create_environment 0 "app3" "env1" None (Some [])
      (store_of (create_application 0 "app3" example_store)) = Ok env s2 /\
    envs s2 !! env = Some (mkEnvironment 2 "env1" None (Some [])) /\
    apps s2 !! 2 = Some a2 /\ environments a2 = [("env1", env)].
Proof.
  exact (create_application_then_environment example_store 0 "app3" 2
           (store_of (create_application 0 "app3" example_store))
           "env1" None (Some []) eq_refl).
Defined.


(** X17 at the example registry: "app3" created, then "env1" under it with
    the tag k/v, then its tags listed. *)
Lemma create_then_list_tags_witness :
  list_tags_for_resource make_arn_model ACCOUNT_ID_model 0
    "arn:aws:elasticbeanstalk:us-east-1:123456789012:environment/app3/env1"
    (store_of (create_environment 0 "app3" "env1" None (Some [mkTag "k" "v"])
                 (store_of (create_application 0 "app3" example_store)))) =
  Ok ("arn:aws:elasticbeanstalk:us-east-1:123456789012:environment/app3/env1",
      Some [mkTag "k" "v"])
    (store_of (create_environment 0 "app3" "env1" None (Some [mkTag "k" "v"])
                 (store_of (create_application 0 "app3" example_store)))).
Proof.
  exact (proj2 (create_then_list_tags make_arn_model ACCOUNT_ID_model
                  example_store 0 (mkEBBackend "us-east-1" 0) [("app1", 0); ("app2", 1)]
                  "app3" 2 (store_of (create_application 0 "app3" example_store))
                  "env1" None (Some [mkTag "k" "v"]) 1
                  (store_of (create_environment 0 "app3" "env1" None (Some [mkTag "k" "v"])
                               (store_of (create_application 0 "app3" example_store))))
                  make_arn_model_path_inj example_store_reachable eq_refl eq_refl
                  example_names_no_slash eq_refl eq_refl eq_refl)).
Defined.

(** X18 with two registries: a reset of the first leaves the listing of
    the second, and the answer of its [list_tags_for_resource], as they
    were. *)
Lemma backends_do_not_interfere_witness :
  describe_applications 1
    (run_call make_arn_model ACCOUNT_ID_model (CallReset 0) two_backends_store) =
    Ok [1] (run_call make_arn_model ACCOUNT_ID_model (CallReset 0) two_backends_store) /\
  list_tags_for_resource make_arn_model ACCOUNT_ID_model 1 "nope"
    (run_call make_arn_model ACCOUNT_ID_model (CallReset 0) two_backends_store) =
    Raise (not_found_for_arn "nope")
      (run_call make_arn_model ACCOUNT_ID_model (CallReset 0) two_backends_store).
Proof.
  assert (Hc : call_self (CallReset 0) <> Some 1) by discriminate.
  destruct (backends_do_not_interfere make_arn_model ACCOUNT_ID_model
              two_backends_store 1 (mkEBBackend "eu-west-1" 1) (CallReset 0)
              two_backends_store_reachable eq_refl Hc) as (H1 & _ & _ & H4).
  split; [exact H1|].
  apply H4. discriminate.
Defined.

(** X19 at the example registry: a/2 and then a/3 added to the tags [a/1]
    of "env1". *)
Lemma update_tags_last_value_wins_witness :
  exists l',
    update_tags_for_resource make_arn_model ACCOUNT_ID_model 0 example_arn
      [mkTag "a" "2"; mkTag "a" "3"] [] example_store =
      Ok tt (store_with_tags example_store 0 l') /\
    option_map tag_value (find (has_key "a") l') = Some "3".
Proof.
  destruct (update_tags_last_value_wins make_arn_model ACCOUNT_ID_model example_store 0
              example_arn 0
              (mkEnvironment 0 "env1" (Some "64bit Amazon Linux") (Some [mkTag "a" "1"]))
              [mkTag "a" "1"] [mkTag "a" "2"; mkTag "a" "3"] [] "a"
              eq_refl eq_refl eq_refl (fun H => H))
    as (l' & H1 & _ & H3).
  exists l'. split; [exact H1 | exact H3].
Defined.
